(** * OCN Registry: the contract wrapper of [src/registry.ts]

    A shallow embedding of the [Registry] class.  The class is glue between
    the caller and three libraries (ethers, web3-utils, Node's [url]) and a
    remote contract; the embedding keeps that shape:

    - library functions are fields of an environment record [Env], so that
      every statement holds for whatever the libraries compute; a library
      function that can throw returns an option;
    - a call on the contract is an event of a small free monad [prog]; a
      method body is a [prog] term whose [Do] nodes are exactly its awaited
      calls, in order, each with the contract handle it is made on;
    - a thrown exception (a rejected promise) is a [Throw] leaf.

    A string of the model is a sequence of 8-bit characters: it stands for
    the JavaScript string with those code units, and [String.length] for its
    [length]. *)

From Stdlib Require Import Ascii.
From stdpp Require Import base option list strings gmap.

Open Scope string_scope.
Open Scope list_scope.

(** ** Values crossing the contract boundary *)

(** The pieces of a decoded contract response that the wrapper touches: the
    response of a party query is used as an untyped object. *)
Inductive jsval : Type :=
  | JUndefined
  | JStr (s : string)
  | JNums (ns : list nat).

#[global] Instance jsval_eq_dec : EqDecision jsval.
Proof. solve_decision. Defined.

(** A JavaScript object: own properties by name. *)
Abbreviation jsobj := (gmap string jsval).

(** [obj.name]: a missing property reads as [undefined]. *)
Definition prop (o : jsobj) (name : string) : jsval :=
  default JUndefined (o !! name).

(** [Object.assign(target, source)]: the properties of [source] are copied
    over those of [target]. *)
Definition Object_assign (target source : jsobj) : jsobj := source ∪ target.

(** [{ v, r, s }] as returned by the signing helpers. *)
Record Signature : Type := mkSignature {
  sig_v : Z;
  sig_r : string;
  sig_s : string
}.

#[global] Instance Signature_eq_dec : EqDecision Signature.
Proof. solve_decision. Defined.

(** [ethers.Wallet]: only the key it was built from and its [address]. *)
Record Wallet : Type := mkWallet {
  privateKey : string;
  address : string
}.

(** [types.Node] *)
Record Node : Type := mkNode {
  operator : string;
  url : string
}.

(** [types.PartyDetails], as [toPartyDetails] fills it.  The fields copied
    from the response without a conversion keep the type of the response;
    an enum index outside the enum reads as [undefined], here [None]. *)
Record PartyNode : Type := mkPartyNode {
  pn_operator : jsval;
  pn_url : jsval
}.

Record PartyModules : Type := mkPartyModules {
  sender : list (option string);
  receiver : list (option string)
}.

Record PartyDetails : Type := mkPartyDetails {
  countryCode : string;
  partyId : string;
  pd_address : jsval;
  roles : list (option string);
  modules : PartyModules;
  node : PartyNode
}.

(** An entry of [networks.ts]. *)
Record Provider : Type := mkProvider {
  protocol : string;
  host : string;
  port : string
}.

Record ContractInfo : Type := mkContractInfo {
  contract_address : string
}.

Record Network : Type := mkNetwork {
  net_provider : Provider;
  net_contract : ContractInfo
}.

(** ** Delegated operations (lib/sign) *)

(** The five delegated operation kinds. *)
Inductive OpKind : Type :=
  | KSetNode
  | KDeleteNode
  | KSetParty
  | KDeleteParty
  | KSetPartyModules.

#[global] Instance OpKind_eq_dec : EqDecision OpKind.
Proof. solve_decision. Defined.

(** A typed argument of a delegated operation: an address, a fixed-length
    identifier of [width] bytes given as hex text, a list of enum indices or
    a free-form string. *)
Inductive arg : Type :=
  | AAddress (a : string)
  | AIdent (width : nat) (hex : string)
  | AEnums (indices : list nat)
  | AString (s : string).

#[global] Instance arg_eq_dec : EqDecision arg.
Proof. solve_decision. Defined.

(** ** The environment: libraries and repository files outside [src/] *)

Record Env : Type := mkEnv {
  (** [String.prototype.toUpperCase] *)
  toUpperCase : string → string;
  (** [new URL(s).origin]; [None] when the constructor throws *)
  URL_origin : string → option string;
  (** [toHex] of web3-utils; [None] when it throws, as it does for a
      numeral that is not an integer *)
  web3_toHex : string → option string;
  (** [ethers.utils.getAddress]; [None] when it throws *)
  getAddress : string → option string;
  (** [ethers.utils.toUtf8String]; [None] when it throws *)
  toUtf8String : jsval → option string;
  (** the [address] of [new ethers.Wallet(key)]; [None] when the
      constructor throws *)
  computeAddress : string → option string;
  (** [networks] of networks.ts *)
  networks : gmap string Network;
  (** the names of the enums [types.Role] and [types.Module], by index *)
  RoleNames : list string;
  ModuleNames : list string;
  (** the primitives behind lib/sign: encoding, digest and the signing of
      a digest with a key, [None] when signing fails *)
  Encode : OpKind → list arg → string;
  Digest : string → string;
  Signer_sign : string → string → option Signature
}.

(** ** Errors *)

Inductive error : Type :=
  (** constructor: [Option "<environment>" not found in configured networks.] *)
  | NetworkNotFound (environment : string)
  (** [Invalid string length. Wanted <len>, got "<str>" (<str.length>)] *)
  | InvalidStringLength (len : nat) (str : string)
  (** [Invalid address. Expected Ethereum address, got "<address>".] *)
  | InvalidAddress (addr : string)
  (** [No signer provided. Unable to send transaction.] *)
  | NoSigner
  (** thrown by a library or by the language *)
  | InvalidURL (input : string)
  | InvalidPrivateKey
  | InvalidUtf8
  | InvalidNumber (input : string)
  | TypeError
  (** thrown by the contract handle for an argument it cannot encode *)
  | InvalidArgument (value : string)
  (** spec §4.3 *)
  | SigningFailure
  (** a rejected contract call *)
  | TransportFailure (msg : string).

#[global] Instance error_eq_dec : EqDecision error.
Proof. solve_decision. Defined.

(** The result of code that may throw. *)
Abbreviation result A := (error + A)%type.
#[global] Instance result_ret : MRet (sum error) := λ A, inr.
#[global] Instance result_bind : MBind (sum error) := λ A B f r,
  match r with
  | inl e => inl e
  | inr a => f a
  end.
#[global] Instance result_fmap : FMap (sum error) := λ A B f r,
  match r with
  | inl e => inl e
  | inr a => inr (f a)
  end.

(** ** Contract calls and programs *)

(** [ethers.Contract]: where it is deployed and what it is connected to,
    the wallet when there is one ([this.wallet || this.provider]).  A
    transaction sent through the handle is sent and paid for by that
    wallet. *)
Record Contract : Type := mkContract {
  at_address : string;
  connected_wallet : option Wallet
}.

#[global] Instance Wallet_eq_dec : EqDecision Wallet.
Proof. solve_decision. Defined.

#[global] Instance Contract_eq_dec : EqDecision Contract.
Proof. solve_decision. Defined.

Record Tx : Type := mkTx { tx_hash : string }.
Record Receipt : Type := mkReceipt { blockNumber : nat }.

(** The awaited calls: the contract's methods as the wrapper invokes them,
    and [tx.wait()]. *)
Inductive call : Type → Type :=
  | GetNode (operator : string) : call string
  | GetNodeOperators : call (list string)
  | GetPartyDetailsByAddress (addr : string) : call jsobj
  | GetPartyDetailsByOcpi (country id : string) : call jsobj
  | GetParties : call (list string)
  | SetNode (url : string) : call Tx
  | SetNodeRaw (signer domain : string) (v : Z) (r s : string) : call Tx
  | DeleteNode : call Tx
  | DeleteNodeRaw (signer : string) (v : Z) (r s : string) : call Tx
  | SetParty (country id : string) (roles : list nat) (operator : string) : call Tx
  | SetPartyRaw (signer country id : string) (roles : list nat)
      (operator : string) (v : Z) (r s : string) : call Tx
  | SetPartyModules (sender receiver : list nat) : call Tx
  | SetPartyModulesRaw (signer : string) (sender receiver : list nat)
      (v : Z) (r s : string) : call Tx
  | DeleteParty : call Tx
  | DeletePartyRaw (signer : string) (v : Z) (r s : string) : call Tx
  | Wait (tx : Tx) : call Receipt.

(** An async method body: it returns, throws, or awaits a call made on a
    contract handle and goes on with the response. *)
Inductive prog (A : Type) : Type :=
  | Ret (a : A)
  | Throw (e : error)
  | Do {R : Type} (via : Contract) (c : call R) (k : R → prog A).

Arguments Ret {A} a.
Arguments Throw {A} e.
Arguments Do {A R} via c k.

Fixpoint prog_bind_def {A B} (f : A → prog B) (p : prog A) : prog B :=
  match p with
  | Ret a => f a
  | Throw e => Throw e
  | Do via c k => Do via c (λ r, prog_bind_def f (k r))
  end.

#[global] Instance prog_ret : MRet prog := @Ret.
#[global] Instance prog_bind : MBind prog := @prog_bind_def.

(** [await via.c] *)
Definition await {R} (via : Contract) (c : call R) : prog R := Do via c Ret.

(** A synchronous step that may throw. *)
Definition lift {A} (r : result A) : prog A :=
  match r with
  | inl e => Throw e
  | inr a => Ret a
  end.

(** ** The ledger behind the contract *)

(** The ledger answers a call from its state and moves to a next state; it
    may also reject the call.  It sees the handle the call was made on, and
    so the wallet that sends it. *)
Record Ledger : Type := mkLedger {
  lstate : Type;
  respond : Contract → ∀ R, call R → lstate → result R * lstate
}.

(** A call as it was made, with the handle it was made on and its
    outcome. *)
Inductive event : Type :=
  | Event {R : Type} (via : Contract) (c : call R) (r : result R).

(** Runs a program against a ledger: the outcome, the final ledger state and
    the calls made, oldest first. *)
Fixpoint run {A} (L : Ledger) (p : prog A) (σ : lstate L)
  : result A * lstate L * list event :=
  match p with
  | Ret a => (inr a, σ, [])
  | Throw e => (inl e, σ, [])
  | Do via c k =>
      match respond L via _ c σ with
      | (inl e, σ') => (inl e, σ', [Event via c (inl e)])
      | (inr r, σ') =>
          let '(out, σ'', evs) := run L (k r) σ' in
          (out, σ'', Event via c (inr r) :: evs)
      end
  end.

(** ** The wrapper *)

Inductive Mode : Type :=
  | ModeR
  | ModeRW.

#[global] Instance Mode_eq_dec : EqDecision Mode.
Proof. solve_decision. Defined.

Record Registry : Type := mkRegistry {
  provider : string;
  wallet : option Wallet;
  registry : Contract;
  mode : Mode
}.

(** The zero address, the contract's mark of an absent listing. *)
Definition ZERO_ADDRESS : string := "0x0000000000000000000000000000000000000000".

(** The properties every plain object inherits from [Object.prototype]:
    [obj[name]] finds them when [obj] has no property of its own under that
    name. *)
Definition Object_prototype_properties : list string :=
  ["constructor"; "__defineGetter__"; "__defineSetter__"; "hasOwnProperty";
   "__lookupGetter__"; "__lookupSetter__"; "isPrototypeOf";
   "propertyIsEnumerable"; "toString"; "valueOf"; "__proto__";
   "toLocaleString"].

(** The number of bytes a hex text stands for: [0x] and two digits a
    byte. *)
Definition ident_width (hex : string) : option nat :=
  match hex with
  | String "0" (String "x" digits) =>
      if Nat.even (String.length digits)
      then Some (String.length digits / 2)
      else None
  | _ => None
  end.

Section Wrapper.

Context (E : Env).

(** [new ethers.Wallet(key)] *)
Definition Wallet_new (key : string) : result Wallet :=
  match computeAddress E key with
  | Some a => inr (mkWallet key a)
  | None => inl InvalidPrivateKey
  end.

(** [constructor(environment, signer?)].  An absent and an empty [signer]
    are both falsy.  For an [environment] that is no network but the name
    of an inherited property, [networks[environment]] is that property: the
    not-found test passes, its [provider] is undefined and reading
    [provider.protocol] is a type error. *)
Definition constructor (environment : string) (signer : option string)
  : result Registry :=
  match networks E !! environment with
  | None =>
      if decide (environment ∈ Object_prototype_properties)
      then inl TypeError
      else inl (NetworkNotFound environment)
  | Some net =>
      let provider := net_provider net in
      let contract := net_contract net in
      let rpc := protocol provider +:+ "://" +:+ host provider
                 +:+ ":" +:+ port provider in
      match signer with
      | Some key =>
          if decide (key = "")
          then inr (mkRegistry rpc None
                      (mkContract (contract_address contract) None) ModeR)
          else
            w ← Wallet_new key;
            inr (mkRegistry rpc (Some w)
                   (mkContract (contract_address contract) (Some w)) ModeRW)
      | None =>
          inr (mkRegistry rpc None
                 (mkContract (contract_address contract) None) ModeR)
      end
  end.

(** *** Private helpers *)

Definition verifyStringLen (str : string) (len : nat) : result unit :=
  if decide (String.length str ≠ len)
  then inl (InvalidStringLength len str)
  else inr ().

Definition verifyAddress (addr : string) : result unit :=
  match getAddress E addr with
  | Some _ => inr ()
  | None => inl (InvalidAddress addr)
  end.

Definition verifyWritable (this : Registry) : result unit :=
  if decide (mode this ≠ ModeRW) then inl NoSigner else inr ().

Definition toHex (str : string) : result string :=
  match web3_toHex E (toUpperCase E str) with
  | Some hex => inr hex
  | None => inl (InvalidNumber (toUpperCase E str))
  end.

(** [arr.map((index) => Enum[index])]; [map] of a value that is not an
    array is a type error. *)
Definition enum_names (table : list string) (v : jsval)
  : result (list (option string)) :=
  match v with
  | JNums ns => inr ((λ index, table !! index) <$> ns)
  | _ => inl TypeError
  end.

Definition utf8 (v : jsval) : result string :=
  match toUtf8String E v with
  | Some s => inr s
  | None => inl InvalidUtf8
  end.

(** The fields are evaluated in the order of the object literal. *)
Definition toPartyDetails (input : jsobj) : result PartyDetails :=
  cc ← utf8 (prop input "countryCode");
  pid ← utf8 (prop input "partyId");
  rs ← enum_names (RoleNames E) (prop input "roles");
  ms ← enum_names (ModuleNames E) (prop input "modulesSender");
  mr ← enum_names (ModuleNames E) (prop input "modulesReceiver");
  inr (mkPartyDetails cc pid (prop input "partyAddress") rs
         (mkPartyModules ms mr)
         (mkPartyNode (prop input "operatorAddress")
                      (prop input "operatorDomain"))).

(** *** lib/sign *)

(** Modelled from the spec: lib/sign is not among the sources.  The checks
    of §4.1 on the arguments of a builder: an address passes the address
    validation, a fixed-length identifier has its required length.  The
    wrapper hands the identifiers over as the hex text of their bytes
    (registry.ts:228-232), so the length is the number of bytes. *)
Definition validate_arg (a : arg) : result unit :=
  match a with
  | AAddress addr => verifyAddress addr
  | AIdent width hex =>
      if decide (ident_width hex = Some width)
      then inr ()
      else inl (InvalidStringLength width hex)
  | AEnums _ | AString _ => inr ()
  end.

Fixpoint validate_args (args : list arg) : result unit :=
  match args with
  | [] => inr ()
  | a :: rest => validate_arg a;; validate_args rest
  end.

(** Modelled from the spec: lib/sign is not among the sources.  Following
    §4.5 a builder validates its arguments, encodes the operation kind with
    them (§4.1), takes the digest (§4.2) and signs it with the key of the
    authorizing wallet (§4.3); the wrapper reads [v], [r] and [s] off the
    result. *)
Definition sign_operation (kind : OpKind) (args : list arg) (w : Wallet)
  : result Signature :=
  validate_args args;;
  match Signer_sign E (Digest E (Encode E kind args)) (privateKey w) with
  | Some sig => inr sig
  | None => inl SigningFailure
  end.

Definition sign_setNodeRaw (domain : string) (w : Wallet) :=
  sign_operation KSetNode [AString domain] w.

Definition sign_deleteNodeRaw (w : Wallet) :=
  sign_operation KDeleteNode [] w.

Definition sign_setPartyRaw (country id : string) (roles : list nat)
    (operator : string) (w : Wallet) :=
  sign_operation KSetParty
    [AIdent 2 country; AIdent 3 id; AEnums roles; AAddress operator] w.

Definition sign_setPartyModulesRaw (sender receiver : list nat) (w : Wallet) :=
  sign_operation KSetPartyModules [AEnums sender; AEnums receiver] w.

Definition sign_deletePartyRaw (w : Wallet) :=
  sign_operation KDeleteParty [] w.

(** *** Read operations *)

Definition getNode (this : Registry) (operator : string)
  : prog (option string) :=
  lift (verifyAddress operator);;
  node ← await (registry this) (GetNode operator);
  Ret (if decide (node = "") then None else Some node).

(** The loop of [getAllNodes], on the handle [this.registry]. *)
Fixpoint getAllNodes_loop (via : Contract) (operators : list string)
    (nodes : list Node) : prog (list Node) :=
  match operators with
  | [] => Ret nodes
  | operator :: rest =>
      url ← await via (GetNode operator);
      if decide (url = "")
      then getAllNodes_loop via rest nodes
      else getAllNodes_loop via rest (nodes ++ [mkNode operator url])
  end.

Definition getAllNodes (this : Registry) : prog (list Node) :=
  operators ← await (registry this) GetNodeOperators;
  getAllNodes_loop (registry this) operators [].

(** [result.node.operator !== ZERO ? result : undefined] *)
Definition unless_absent (result : PartyDetails) : option PartyDetails :=
  if decide (pn_operator (node result) ≠ JStr ZERO_ADDRESS)
  then Some result
  else None.

Definition getPartyByAddress (this : Registry) (addr : string)
  : prog (option PartyDetails) :=
  details ← await (registry this) (GetPartyDetailsByAddress addr);
  result ← lift (toPartyDetails
                   (Object_assign {[ "partyAddress" := JStr addr ]} details));
  Ret (unless_absent result).

Definition getPartyByOcpi (this : Registry) (countryCode partyId : string)
  : prog (option PartyDetails) :=
  lift (verifyStringLen countryCode 2);;
  lift (verifyStringLen partyId 3);;
  country ← lift (toHex countryCode);
  id ← lift (toHex partyId);
  details ← await (registry this) (GetPartyDetailsByOcpi country id);
  result ← lift (toPartyDetails
                   (Object_assign
                      {[ "countryCode" := JStr country; "partyId" := JStr id ]}
                      details));
  Ret (unless_absent result).

(** The loop of [getAllParties], on the handle [this.registry]. *)
Fixpoint getAllParties_loop (via : Contract) (partyAddresses : list string)
    (details : list PartyDetails) : prog (list PartyDetails) :=
  match partyAddresses with
  | [] => Ret details
  | addr :: rest =>
      result ← await via (GetPartyDetailsByAddress addr);
      if decide (prop result "operatorAddress" ≠ JStr ZERO_ADDRESS)
      then
        d ← lift (toPartyDetails
                    (Object_assign {[ "partyAddress" := JStr addr ]} result));
        getAllParties_loop via rest (details ++ [d])
      else getAllParties_loop via rest details
  end.

Definition getAllParties (this : Registry) : prog (list PartyDetails) :=
  partyAddresses ← await (registry this) GetParties;
  getAllParties_loop (registry this) partyAddresses [].

(** *** Write operations *)

(** [new URL(domain)] *)
Definition URL_new (domain : string) : result string :=
  match URL_origin E domain with
  | Some origin => inr origin
  | None => inl (InvalidURL domain)
  end.

(** [await tx.wait(); return tx]: the transaction waits on the connection
    of the handle that sent it. *)
Definition mined (this : Registry) (tx : Tx) : prog Tx :=
  await (registry this) (Wait tx);;
  Ret tx.

Definition setNode (this : Registry) (domain : string) : prog Tx :=
  lift (verifyWritable this);;
  origin ← lift (URL_new domain);
  tx ← await (registry this) (SetNode origin);
  mined this tx.

Definition setNodeRaw (this : Registry) (domain signer : string) : prog Tx :=
  lift (verifyWritable this);;
  wallet ← lift (Wallet_new signer);
  sig ← lift (sign_setNodeRaw domain wallet);
  tx ← await (registry this)
         (SetNodeRaw (address wallet) domain
            (sig_v sig) (sig_r sig) (sig_s sig));
  mined this tx.

Definition deleteNode (this : Registry) : prog Tx :=
  lift (verifyWritable this);;
  tx ← await (registry this) DeleteNode;
  mined this tx.

Definition deleteNodeRaw (this : Registry) (signer : string) : prog Tx :=
  lift (verifyWritable this);;
  wallet ← lift (Wallet_new signer);
  sig ← lift (sign_deleteNodeRaw wallet);
  tx ← await (registry this)
         (DeleteNodeRaw (address wallet) (sig_v sig) (sig_r sig) (sig_s sig));
  mined this tx.

(** The arguments of the contract call are evaluated from left to right,
    before the call. *)
Definition setParty (this : Registry) (countryCode partyId : string)
    (roles : list nat) (operator : string) : prog Tx :=
  lift (verifyWritable this);;
  lift (verifyStringLen countryCode 2);;
  lift (verifyStringLen partyId 3);;
  lift (verifyAddress operator);;
  country ← lift (toHex countryCode);
  id ← lift (toHex partyId);
  tx ← await (registry this) (SetParty country id roles operator);
  mined this tx.

Definition setPartyRaw (this : Registry) (countryCode partyId : string)
    (roles : list nat) (operator signer : string) : prog Tx :=
  lift (verifyWritable this);;
  lift (verifyStringLen countryCode 2);;
  lift (verifyStringLen partyId 3);;
  lift (verifyAddress operator);;
  country ← lift (toHex countryCode);
  id ← lift (toHex partyId);
  wallet ← lift (Wallet_new signer);
  sig ← lift (sign_setPartyRaw country id roles operator wallet);
  tx ← await (registry this)
         (SetPartyRaw (address wallet) country id roles operator
            (sig_v sig) (sig_r sig) (sig_s sig));
  mined this tx.

Definition setPartyModules (this : Registry) (sender receiver : list nat)
  : prog Tx :=
  lift (verifyWritable this);;
  tx ← await (registry this) (SetPartyModules sender receiver);
  mined this tx.

Definition setPartyModulesRaw (this : Registry) (sender receiver : list nat)
    (signer : string) : prog Tx :=
  lift (verifyWritable this);;
  wallet ← lift (Wallet_new signer);
  sig ← lift (sign_setPartyModulesRaw sender receiver wallet);
  tx ← await (registry this)
         (SetPartyModulesRaw (address wallet) sender receiver
            (sig_v sig) (sig_r sig) (sig_s sig));
  mined this tx.

Definition deleteParty (this : Registry) : prog Tx :=
  lift (verifyWritable this);;
  tx ← await (registry this) DeleteParty;
  mined this tx.

Definition deletePartyRaw (this : Registry) (signer : string) : prog Tx :=
  lift (verifyWritable this);;
  wallet ← lift (Wallet_new signer);
  sig ← lift (sign_deletePartyRaw wallet);
  tx ← await (registry this)
         (DeletePartyRaw (address wallet) (sig_v sig) (sig_r sig) (sig_s sig));
  mined this tx.

End Wrapper.

Arguments sign_operation : simpl never.

(** ** The public surface as one dispatcher *)

(** A method of the wrapper together with its arguments. *)
Inductive operation : Type :=
  | OGetNode (operator : string)
  | OGetAllNodes
  | OGetPartyByAddress (addr : string)
  | OGetPartyByOcpi (countryCode partyId : string)
  | OGetAllParties
  | OSetNode (domain : string)
  | OSetNodeRaw (domain signer : string)
  | ODeleteNode
  | ODeleteNodeRaw (signer : string)
  | OSetParty (countryCode partyId : string) (roles : list nat) (operator : string)
  | OSetPartyRaw (countryCode partyId : string) (roles : list nat)
      (operator signer : string)
  | OSetPartyModules (sender receiver : list nat)
  | OSetPartyModulesRaw (sender receiver : list nat) (signer : string)
  | ODeleteParty
  | ODeletePartyRaw (signer : string).

(** What a method resolves to. *)
Inductive value : Type :=
  | VNode (n : option string)
  | VNodes (ns : list Node)
  | VParty (p : option PartyDetails)
  | VParties (ps : list PartyDetails)
  | VTx (tx : Tx).

#[global] Instance prog_fmap : FMap prog := λ A B f p, a ← p; Ret (f a).

Definition invoke (E : Env) (this : Registry) (o : operation) : prog value :=
  match o with
  | OGetNode operator => VNode <$> getNode E this operator
  | OGetAllNodes => VNodes <$> getAllNodes this
  | OGetPartyByAddress addr => VParty <$> getPartyByAddress E this addr
  | OGetPartyByOcpi cc pid => VParty <$> getPartyByOcpi E this cc pid
  | OGetAllParties => VParties <$> getAllParties E this
  | OSetNode domain => VTx <$> setNode E this domain
  | OSetNodeRaw domain signer => VTx <$> setNodeRaw E this domain signer
  | ODeleteNode => VTx <$> deleteNode this
  | ODeleteNodeRaw signer => VTx <$> deleteNodeRaw E this signer
  | OSetParty cc pid roles operator =>
      VTx <$> setParty E this cc pid roles operator
  | OSetPartyRaw cc pid roles operator signer =>
      VTx <$> setPartyRaw E this cc pid roles operator signer
  | OSetPartyModules s r => VTx <$> setPartyModules this s r
  | OSetPartyModulesRaw s r signer =>
      VTx <$> setPartyModulesRaw E this s r signer
  | ODeleteParty => VTx <$> deleteParty this
  | ODeletePartyRaw signer => VTx <$> deletePartyRaw E this signer
  end.

Definition is_write (o : operation) : bool :=
  match o with
  | OGetNode _ | OGetAllNodes | OGetPartyByAddress _ | OGetPartyByOcpi _ _
  | OGetAllParties => false
  | _ => true
  end.

(** The private key handed to a raw operation. *)
Definition raw_signer (o : operation) : option string :=
  match o with
  | OSetNodeRaw _ signer | ODeleteNodeRaw signer
  | OSetPartyRaw _ _ _ _ signer | OSetPartyModulesRaw _ _ signer
  | ODeletePartyRaw signer => Some signer
  | _ => None
  end.

(** The [verify...] calls of each method, in the order of its body. *)
Definition checks (E : Env) (this : Registry) (o : operation)
  : list (result unit) :=
  match o with
  | OGetNode operator => [verifyAddress E operator]
  | OGetAllNodes | OGetPartyByAddress _ | OGetAllParties => []
  | OGetPartyByOcpi cc pid => [verifyStringLen cc 2; verifyStringLen pid 3]
  | OSetParty cc pid _ operator | OSetPartyRaw cc pid _ operator _ =>
      [verifyWritable this; verifyStringLen cc 2; verifyStringLen pid 3;
       verifyAddress E operator]
  | _ => [verifyWritable this]
  end.

Fixpoint first_error (rs : list (result unit)) : option error :=
  match rs with
  | [] => None
  | inl e :: _ => Some e
  | inr _ :: rest => first_error rest
  end.

(** The first awaited call of a program, if it awaits one. *)
Inductive sent : Type :=
  | Sent {R : Type} (c : call R).

Definition first_call {A} (p : prog A) : option sent :=
  match p with
  | Do _ c _ => Some (Sent c)
  | _ => None
  end.

(** The delegated operation a raw contract call carries: the claimed
    signer, the kind, the arguments in the order of the call and the
    signature (spec §3). *)
Record Delegated : Type := mkDelegated {
  claimed : string;
  kind : OpKind;
  arguments : list arg;
  signature : Signature
}.

Definition delegated {R} (c : call R) : option Delegated :=
  match c with
  | SetNodeRaw signer domain v r s =>
      Some (mkDelegated signer KSetNode [AString domain] (mkSignature v r s))
  | DeleteNodeRaw signer v r s =>
      Some (mkDelegated signer KDeleteNode [] (mkSignature v r s))
  | SetPartyRaw signer country id roles operator v r s =>
      Some (mkDelegated signer KSetParty
              [AIdent 2 country; AIdent 3 id; AEnums roles; AAddress operator]
              (mkSignature v r s))
  | SetPartyModulesRaw signer sender receiver v r s =>
      Some (mkDelegated signer KSetPartyModules
              [AEnums sender; AEnums receiver] (mkSignature v r s))
  | DeletePartyRaw signer v r s =>
      Some (mkDelegated signer KDeleteParty [] (mkSignature v r s))
  | _ => None
  end.

(** The delegated operation a program submits with its first call. *)
Definition submitted {A} (p : prog A) : option Delegated :=
  match p with
  | Do _ c _ => delegated c
  | _ => None
  end.

(** What a raw method hands to lib/sign: the kind of the builder it calls
    and the arguments it passes to it.  [setPartyRaw] has nothing to hand
    over when the hex conversion of an identifier throws. *)
Definition payload (E : Env) (o : operation) : option (OpKind * list arg) :=
  match o with
  | OSetNodeRaw domain _ => Some (KSetNode, [AString domain])
  | ODeleteNodeRaw _ => Some (KDeleteNode, [])
  | OSetPartyRaw cc pid roles operator _ =>
      country ← web3_toHex E (toUpperCase E cc);
      id ← web3_toHex E (toUpperCase E pid);
      Some (KSetParty,
            [AIdent 2 country; AIdent 3 id; AEnums roles; AAddress operator])
  | OSetPartyModulesRaw sender receiver _ =>
      Some (KSetPartyModules, [AEnums sender; AEnums receiver])
  | ODeletePartyRaw _ => Some (KDeleteParty, [])
  | _ => None
  end.

(** The successful party queries among the events, with their responses. *)
Definition party_response (ev : event) : list (string * jsobj) :=
  match ev with
  | Event _ c r =>
      match c in call R return result R → list (string * jsobj) with
      | GetPartyDetailsByAddress addr =>
          λ r, match r with inr o => [(addr, o)] | inl _ => [] end
      | _ => λ _, []
      end r
  end.

Definition party_responses (evs : list event) : list (string * jsobj) :=
  evs ≫= party_response.

(** The error of the last event, when the ledger rejected that call. *)
Definition rejected (ev : event) : option error :=
  match ev with
  | Event _ _ (inl e) => Some e
  | Event _ _ (inr _) => None
  end.

Definition failure (evs : list event) : option error :=
  last evs ≫= rejected.

(** The handle an event was made on. *)
Definition event_via (ev : event) : Contract :=
  match ev with
  | Event via _ _ => via
  end.

(** The delegated operation of an event, when its call is a raw one. *)
Definition event_delegated (ev : event) : option Delegated :=
  match ev with
  | Event _ c _ => delegated c
  end.

(** A ledger that answers a call alike on whatever handle it is made. *)
Definition handle_blind (L : Ledger) : Prop :=
  ∀ via via' R (c : call R) (σ : lstate L),
    respond L via R c σ = respond L via' R c σ.

(** ** The contract handle *)




(** The value of a step that did not throw. *)
Definition succeeded {A} (r : result A) : option A :=
  match r with
  | inr a => Some a
  | inl _ => None
  end.

(** ** A sample environment

    Small stand-ins for the libraries, to run the wrapper on concrete
    inputs.  Each one agrees with its library on the inputs it is run on
    below; where it is narrower than the library, its comment says so. *)
Module Sample.

(** Upper-casing of the letters [a] to [z]; other characters are left alone
    (the library also maps letters outside ASCII). *)
Definition upper_ascii (c : ascii) : ascii :=
  let n := Ascii.nat_of_ascii c in
  if Nat.leb 97 n && Nat.leb n 122 then Ascii.ascii_of_nat (n - 32) else c.

Fixpoint upper (s : string) : string :=
  match s with
  | "" => ""
  | String c rest => String (upper_ascii c) (upper rest)
  end.

Definition hex_digit (n : nat) : ascii :=
  default "0"%char (String.get n "0123456789abcdef").

Definition hex_of_ascii (c : ascii) : string :=
  let n := Ascii.nat_of_ascii c in
  String (hex_digit (n / 16)) (String (hex_digit (n mod 16)) "").

Fixpoint hex_of_string (s : string) : string :=
  match s with
  | "" => ""
  | String c rest => hex_of_ascii c +:+ hex_of_string rest
  end.

(** [utf8ToHex] on ASCII text, which is what [toHex] of web3-utils applies
    to a string that is neither numeric nor hex-prefixed. *)
Definition utf8ToHex (s : string) : string := "0x" +:+ hex_of_string s.

Definition is_digit (c : ascii) : bool :=
  let n := Ascii.nat_of_ascii c in
  Nat.leb 48 n && Nat.leb n 57.

Definition is_dot (c : ascii) : bool := Nat.eqb (Ascii.nat_of_ascii c) 46.

Fixpoint decimal_value (cs : list ascii) (acc : nat) : nat :=
  match cs with
  | [] => acc
  | c :: rest => decimal_value rest (acc * 10 + (Ascii.nat_of_ascii c - 48))
  end.

Fixpoint hex_digits (fuel n : nat) (acc : string) : string :=
  match fuel with
  | 0 => acc
  | S fuel' =>
      let acc' := String (hex_digit (n mod 16)) acc in
      if Nat.eqb (n / 16) 0 then acc' else hex_digits fuel' (n / 16) acc'
  end.

(** [toHex] of web3-utils on a string: hex-prefixed text is returned as it
    is; a decimal integer is converted as a number; a decimal numeral with a
    fraction, such as [1.5], makes it throw; other text is encoded with
    [utf8ToHex].  (The library reads further numerals as numbers: signed
    ones, ones with an exponent or with blanks around them.) *)
Definition to_hex (s : string) : option string :=
  let cs := String.list_ascii_of_string s in
  if String.prefix "0x" s || String.prefix "0X" s then Some s
  else if negb (Nat.eqb (length cs) 0) && forallb is_digit cs
  then Some ("0x" +:+ hex_digits (S (decimal_value cs 0))
                        (decimal_value cs 0) "")
  else if forallb (λ c, is_digit c || is_dot c) cs
          && Nat.eqb (length (filter (λ c, is_dot c = true) cs)) 1
          && existsb is_digit cs
  then None
  else Some (utf8ToHex s).

Definition digit_value (c : ascii) : option nat :=
  let n := Ascii.nat_of_ascii c in
  if Nat.leb 48 n && Nat.leb n 57 then Some (n - 48)
  else if Nat.leb 97 n && Nat.leb n 102 then Some (n - 87)
  else if Nat.leb 65 n && Nat.leb n 70 then Some (n - 55)
  else None.

Fixpoint bytes_of_hex (s : string) : option (list nat) :=
  match s with
  | "" => Some []
  | String a (String b rest) =>
      x ← digit_value a;
      y ← digit_value b;
      bs ← bytes_of_hex rest;
      Some (x * 16 + y :: bs)
  | _ => None
  end.

Fixpoint string_of_bytes (bs : list nat) : string :=
  match bs with
  | [] => ""
  | b :: rest => String (Ascii.ascii_of_nat b) (string_of_bytes rest)
  end.

(** Decodes a hex string of ASCII bytes.  A byte above [0x7f] is rejected:
    right for a byte such as [0xff], which occurs in no UTF-8 text and makes
    the library throw, and narrower than the library on well-formed
    multi-byte sequences. *)
Definition decode_utf8 (v : jsval) : option string :=
  match v with
  | JStr (String "0" (String "x" h)) =>
      bs ← bytes_of_hex h;
      if forallb (λ b, Nat.ltb b 128) bs then Some (string_of_bytes bs) else None
  | _ => None
  end.

Definition is_lower_hex (c : ascii) : bool :=
  let n := Ascii.nat_of_ascii c in
  (Nat.leb 48 n && Nat.leb n 57) || (Nat.leb 97 n && Nat.leb n 102).

(** Accepts [0x] followed by forty lower-case hex digits and returns it as
    it is (the library also accepts upper-case and checksummed mixed-case
    spellings, and answers in the checksummed spelling). *)
Definition lower_address (s : string) : option string :=
  match s with
  | String "0" (String "x" h) =>
      if Nat.eqb (String.length h) 40
         && forallb is_lower_hex (String.list_ascii_of_string h)
      then Some s else None
  | _ => None
  end.

(** The text of [s] up to the first of the characters [/], [?] and [#]. *)
Fixpoint authority (s : string) : string :=
  match s with
  | "" => ""
  | String c rest =>
      if bool_decide (c = "/"%char ∨ c = "?"%char ∨ c = "#"%char)
      then "" else String c (authority rest)
  end.

Definition strip_prefix (p s : string) : option string :=
  if String.prefix p s
  then Some (String.substring (String.length p)
               (String.length s - String.length p) s)
  else None.

(** The origin of an [http] or [https] URL written in lower case without
    user information and without a port; everything else is rejected (the
    library accepts and normalizes much more). *)
Definition origin (s : string) : option string :=
  match strip_prefix "https://" s, strip_prefix "http://" s with
  | Some rest, _ =>
      if decide (authority rest = "") then None
      else Some ("https://" +:+ authority rest)
  | None, Some rest =>
      if decide (authority rest = "") then None
      else Some ("http://" +:+ authority rest)
  | None, None => None
  end.

(** A toy signature scheme: the address of a key is the key behind [0x], a
    signature stores key and digest. *)
Definition address_of_key (key : string) : option string :=
  if decide (key = "") then None else Some ("0x" +:+ key).

Definition kind_tag (k : OpKind) : string :=
  match k with
  | KSetNode => "setNode"
  | KDeleteNode => "deleteNode"
  | KSetParty => "setParty"
  | KDeleteParty => "deleteParty"
  | KSetPartyModules => "setPartyModules"
  end.

Definition encode_arg (a : arg) : string :=
  match a with
  | AAddress s => "address:" +:+ s
  | AIdent _ s => "ident:" +:+ s
  | AEnums ns => "enums:" +:+ string_of_bytes ((λ n, 48 + n) <$> ns)
  | AString s => "string:" +:+ s
  end.

Definition encode (k : OpKind) (args : list arg) : string :=
  kind_tag k +:+ "(" +:+ String.concat "," (encode_arg <$> args) +:+ ")".

Definition digest (payload : string) : string := "#" +:+ payload.

Definition sign (d key : string) : option Signature :=
  if decide (key = "") then None else Some (mkSignature 27 key d).

Definition env : Env := {|
  toUpperCase := upper;
  URL_origin := origin;
  web3_toHex := to_hex;
  getAddress := lower_address;
  toUtf8String := decode_utf8;
  computeAddress := address_of_key;
  networks :=
    {[ "local" := mkNetwork (mkProvider "http" "localhost" "8544")
                    (mkContractInfo "0x345ca3e014aaf5dca488057592ee47305d9b3e10") ]};
  RoleNames := ["CPO"; "EMSP"; "HUB"];
  ModuleNames := ["cdrs"; "locations"; "sessions"];
  Encode := encode;
  Digest := digest;
  Signer_sign := sign
|}.

(** A ledger without state: it answers every party query with the same
    response, lists the given addresses and accepts every transaction. *)
Definition canned (parties : list string) (response : jsobj) : Ledger := {|
  lstate := unit;
  respond := λ via R c σ,
    match c in call R return result R * unit with
    | GetNode _ => (inr "https://node.example.org", σ)
    | GetNodeOperators => (inr [], σ)
    | GetPartyDetailsByAddress _ => (inr response, σ)
    | GetPartyDetailsByOcpi _ _ => (inr response, σ)
    | GetParties => (inr parties, σ)
    | Wait _ => (inr (mkReceipt 1), σ)
    | _ => (inr (mkTx "0xabc"), σ)
    end
|}.

(** A response whose operator is the zero address and whose country code is
    the two bytes [0xff 0xff]. *)
Definition absent_undecodable : jsobj :=
  {[ "countryCode" := JStr "0xffff";
     "partyId" := JStr "0x000000";
     "roles" := JNums [];
     "modulesSender" := JNums [];
     "modulesReceiver" := JNums [];
     "operatorAddress" := JStr ZERO_ADDRESS;
     "operatorDomain" := JStr "" ]}.

(** A response of a listed party. *)
Definition listed_party : jsobj :=
  {[ "countryCode" := JStr "0x4445";
     "partyId" := JStr "0x414243";
     "roles" := JNums [0; 1];
     "modulesSender" := JNums [];
     "modulesReceiver" := JNums [1];
     "operatorAddress" := JStr "0x9bc1169ca09555bf2721a5c9ec6d69c8073bfeb4";
     "operatorDomain" := JStr "https://node.example.org" ]}.

(** A response of a party that is not listed. *)
Definition absent_party : jsobj :=
  {[ "countryCode" := JStr "0x0000";
     "partyId" := JStr "0x000000";
     "roles" := JNums [];
     "modulesSender" := JNums [];
     "modulesReceiver" := JNums [];
     "operatorAddress" := JStr ZERO_ADDRESS;
     "operatorDomain" := JStr "" ]}.

Definition read_only : Registry :=
  mkRegistry "http://localhost:8544" None
    (mkContract "0x345ca3e014aaf5dca488057592ee47305d9b3e10" None) ModeR.

Definition spender : Wallet := mkWallet "spender" "0xspender".

Definition writable : Registry :=
  mkRegistry "http://localhost:8544" (Some spender)
    (mkContract "0x345ca3e014aaf5dca488057592ee47305d9b3e10" (Some spender))
    ModeRW.

End Sample.

(** ** Reading the events of a run *)

(** The successful node queries among the events, each with the operator
    asked for and the url answered. *)
Definition node_response (ev : event) : list Node :=
  match ev with
  | Event _ c r =>
      match c in call R return result R → list Node with
      | GetNode operator =>
          λ r, match r with inr url => [mkNode operator url] | inl _ => [] end
      | _ => λ _, []
      end r
  end.

Definition node_responses (evs : list event) : list Node :=
  evs ≫= node_response.

(** A node answer that carries a listing: the url is not empty. *)
Definition has_url (n : Node) : Prop := url n ≠ "".

#[global] Instance has_url_dec (n : Node) : Decision (has_url n).
Proof. unfold has_url. apply _. Defined.

(** The calls that only read the contract. *)
Definition is_query {R} (c : call R) : bool :=
  match c with
  | GetNode _ | GetNodeOperators | GetPartyDetailsByAddress _
  | GetPartyDetailsByOcpi _ _ | GetParties => true
  | _ => false
  end.

Definition query_event (ev : event) : Prop :=
  match ev with
  | Event _ c _ => is_query c = true
  end.

(** The calls that submit a transaction. *)
Definition is_submission {R} (c : call R) : bool :=
  match c with
  | SetNode _ | SetNodeRaw _ _ _ _ _ | DeleteNode | DeleteNodeRaw _ _ _ _
  | SetParty _ _ _ _ | SetPartyRaw _ _ _ _ _ _ _ _ | SetPartyModules _ _
  | SetPartyModulesRaw _ _ _ _ _ _ | DeleteParty | DeletePartyRaw _ _ _ _ =>
      true
  | _ => false
  end.

(** The course of a write made on the handle [via]: nothing was sent; the
    submission was rejected; the transaction was sent and waiting for it
    failed; or it was sent and mined, and the method resolved to that
    transaction. *)
Definition write_course (L : Ledger) (via : Contract) (σ : lstate L)
    (outcome : result value * lstate L * list event) : Prop :=
  match outcome with
  | (inr v, _, evs) =>
      ∃ (c : call Tx) (tx : Tx) (receipt : Receipt),
        is_submission c = true
        ∧ evs = [Event via c (inr tx); Event via (Wait tx) (inr receipt)]
        ∧ v = VTx tx
  | (inl e, σ', evs) =>
      (evs = [] ∧ σ' = σ)
      ∨ (∃ c : call Tx, is_submission c = true ∧ evs = [Event via c (inl e)])
      ∨ (∃ (c : call Tx) (tx : Tx),
           is_submission c = true
           ∧ evs = [Event via c (inr tx); Event via (Wait tx) (inl e)])
  end.

(** An event whose call carries no claimed signer and no signature. *)
Definition unsigned_event (ev : event) : Prop :=
  match ev with
  | Event _ c _ => delegated c = None
  end.

(** [Array.isArray] on the values of the model. *)
Definition is_array (v : jsval) : Prop :=
  match v with
  | JNums _ => True
  | _ => False
  end.

(** Ledgers to run the node listing and the writes against. *)
Module Fixture.

(** A ledger over a fixed table of operators and urls.  Its state counts
    the calls it has answered; it accepts every transaction and reports it
    mined in the block of that count. *)
Definition nodes_ledger (table : list (string * string)) : Ledger := {|
  lstate := nat;
  respond := λ via R c n,
    match c in call R return result R * nat with
    | GetNode operator =>
        (inr (default "" ((list_to_map table : gmap string string)
                            !! operator)), S n)
    | GetNodeOperators => (inr (table.*1), S n)
    | GetPartyDetailsByAddress _ => (inr ∅, S n)
    | GetPartyDetailsByOcpi _ _ => (inr ∅, S n)
    | GetParties => (inr [], S n)
    | Wait _ => (inr (mkReceipt n), S n)
    | _ => (inr (mkTx "0xfeed"), S n)
    end
|}.

(** A ledger that rejects every call. *)
Definition unreachable : Ledger := {|
  lstate := unit;
  respond := λ via R c σ, (inl (TransportFailure "timeout"), σ)
|}.

(** A response of a query by OCPI identifiers: the contract answers the
    address of the party and no country code or party id. *)
Definition ocpi_response : jsobj :=
  {[ "partyAddress" := JStr "0x0b1d4d8a1f3c7cf0a2b0e9d5f0c6a4e3b2a19876";
     "roles" := JNums [0; 7];
     "modulesSender" := JNums [];
     "modulesReceiver" := JNums [1];
     "operatorAddress" := JStr "0x9bc1169ca09555bf2721a5c9ec6d69c8073bfeb4";
     "operatorDomain" := JStr "https://node.example.org" ]}.

End Fixture.

(** ** Properties *)

(** *** Programs *)

Lemma submitted_fmap {A B} (f : A → B) (p : prog A) :
  submitted (f <$> p) = submitted p.
Proof. by destruct p. Qed.

(** Mapping over the result changes neither the calls nor the ledger. *)
Lemma run_fmap {A B} (f : A → B) (L : Ledger) (p : prog A) :
  ∀ σ : lstate L,
    run L (f <$> p) σ
    = let '(out, σ', evs) := run L p σ in (f <$> out, σ', evs).
Proof.
  change (f <$> p) with (prog_bind_def (λ a, Ret (f a)) p).
  induction p as [a|e|R via c k IH]; intros σ; [done|done|].
  cbn. destruct (respond L via R c σ) as [[e|r] σ1]; [done|].
  rewrite IH. by destruct (run L (k r) σ1) as [[out σ2] evs].
Qed.

Lemma run_fmap_events {A B} (f : A → B) (L : Ledger) (p : prog A)
    (σ : lstate L) :
  (run L (f <$> p) σ).2 = (run L p σ).2.
Proof. rewrite run_fmap. by destruct (run L p σ) as [[out σ'] evs]. Qed.

(** *** The private checks *)

Lemma verifyStringLen_ok (str : string) (len : nat) :
  verifyStringLen str len = inr () ↔ String.length str = len.
Proof.
  unfold verifyStringLen. case_decide as Hlen.
  - split; [done | intros; contradiction].
  - done.
Qed.

Lemma verifyStringLen_error (str : string) (len : nat) :
  String.length str ≠ len →
  verifyStringLen str len = inl (InvalidStringLength len str).
Proof. intros Hlen. unfold verifyStringLen. by rewrite decide_True. Qed.

Lemma verifyAddress_ok (E : Env) (addr : string) :
  verifyAddress E addr = inr () ↔ is_Some (getAddress E addr).
Proof.
  unfold verifyAddress. destruct (getAddress E addr) as [a|].
  - split; eauto.
  - split; [done | by intros [? ?]].
Qed.


Lemma verifyWritable_ok (this : Registry) :
  verifyWritable this = inr () ↔ mode this = ModeRW.
Proof.
  unfold verifyWritable. case_decide as Hmode.
  - split; [done | intros; contradiction].
  - done.
Qed.

Lemma verifyWritable_error (this : Registry) :
  mode this ≠ ModeRW → verifyWritable this = inl NoSigner.
Proof. intros Hmode. unfold verifyWritable. by rewrite decide_True. Qed.

(** Unfolds the method bodies. *)
Ltac unfold_methods :=
  unfold invoke, getNode, getAllNodes, getPartyByAddress, getPartyByOcpi,
    getAllParties, setNode, setNodeRaw, deleteNode, deleteNodeRaw, setParty,
    setPartyRaw, setPartyModules, setPartyModulesRaw, deleteParty,
    deletePartyRaw in *.

(** *** Read-only mode *)

Lemma constructor_mode (E : Env) (environment : string)
    (signer : option string) (this : Registry) :
  constructor E environment signer = inr this →
  mode this = ModeRW ↔ ∃ key, signer = Some key ∧ key ≠ "".
Proof.
  unfold constructor.
  destruct (networks E !! environment) as [net|]; [|by case_decide].
  destruct signer as [key|].
  - case_decide as Hkey.
    + intros [= <-]. cbn. split; [done|]. intros (k & [= <-] & Hk). done.
    + destruct (Wallet_new E key) as [e|w]; cbn; [done|].
      intros [= <-]. cbn. split; [eauto | done].
  - intros [= <-]. cbn. split; [done|]. by intros (k & ? & _).
Qed.

Lemma write_without_signer (E : Env) (this : Registry) (o : operation) :
  mode this ≠ ModeRW → is_write o = true → invoke E this o = Throw NoSigner.
Proof.
  intros Hmode Hwrite.
  destruct o; try discriminate Hwrite; unfold_methods;
    by rewrite (verifyWritable_error this Hmode).
Qed.

(** C3.  A wrapper constructed without a signer (or with the empty string,
    which is as falsy) rejects each of the ten write operations with the
    "no signer" error without a single contract call: the ledger keeps its
    state and sees no event.  A wrapper constructed with a signer is in
    mode r+w and passes the writability check. *)
Theorem read_only_mode_rejects_writes (E : Env) (environment : string)
    (signer : option string) (this : Registry) :
  constructor E environment signer = inr this →
  (signer = None ∨ signer = Some "" →
   ∀ o, is_write o = true →
     invoke E this o = Throw NoSigner ∧
     ∀ (L : Ledger) (σ : lstate L),
       run L (invoke E this o) σ = (inl NoSigner, σ, []))
  ∧ (∀ key, signer = Some key → key ≠ "" →
       mode this = ModeRW ∧ verifyWritable this = inr ()).
Proof.
  intros Hnew. pose proof (constructor_mode E _ _ _ Hnew) as Hmode. split.
  - intros Hsigner o Hwrite.
    assert (mode this ≠ ModeRW) as Hro.
    { rewrite Hmode. intros (key & Heq & Hkey).
      destruct Hsigner as [Hs|Hs]; rewrite Hs in Heq; [done|].
      injection Heq as <-. done. }
    rewrite (write_without_signer E this o Hro Hwrite). done.
  - intros key -> Hkey.
    assert (mode this = ModeRW) as Hrw by (apply Hmode; eauto).
    split; [done|]. by apply verifyWritable_ok.
Qed.

Lemma read_only_mode_rejects_writes_witness :
  (∀ o, is_write o = true →
     invoke Sample.env Sample.read_only o = Throw NoSigner ∧
     ∀ (L : Ledger) (σ : lstate L),
       run L (invoke Sample.env Sample.read_only o) σ = (inl NoSigner, σ, []))
  ∧ verifyWritable Sample.writable = inr ().
Proof.
  split.
  - apply (read_only_mode_rejects_writes Sample.env "local" None
             Sample.read_only); [vm_compute; reflexivity | by left].
  - assert (constructor Sample.env "local" (Some "spender")
            = inr Sample.writable) as Hnew by (vm_compute; reflexivity).
    destruct (read_only_mode_rejects_writes _ _ _ _ Hnew) as [_ Hrw].
    by destruct (Hrw "spender" eq_refl).
Defined.

(** *** Validation comes first *)

(** C5.  When one of the checks of a method fails, the method throws the
    error of the first failing check and its body contains no contract call
    before that: run against any ledger in any state, it raises that error,
    leaves the ledger state as it was and produces no event. *)
Theorem validation_precedes_network (E : Env) (this : Registry)
    (o : operation) (e : error) :
  first_error (checks E this o) = Some e →
  invoke E this o = Throw e ∧
  ∀ (L : Ledger) (σ : lstate L), run L (invoke E this o) σ = (inl e, σ, []).
Proof.
  intros Hfirst.
  assert (invoke E this o = Throw e) as ->; [|done].
  destruct o; cbn in Hfirst; unfold_methods;
    repeat match type of Hfirst with
      | context [verifyWritable ?t] =>
          destruct (verifyWritable t) as [?|[]]; cbn in Hfirst |- *
      | context [verifyStringLen ?s ?n] =>
          destruct (verifyStringLen s n) as [?|[]]; cbn in Hfirst |- *
      | context [verifyAddress ?E' ?a] =>
          destruct (verifyAddress E' a) as [?|[]]; cbn in Hfirst |- *
      end;
    congruence.
Qed.

Lemma validation_precedes_network_witness :
  invoke Sample.env Sample.writable
    (OSetPartyRaw "de" "abcd" [0] "0x9bc1169ca09555bf2721a5c9ec6d69c8073bfeb4"
       "owner")
  = Throw (InvalidStringLength 3 "abcd").
Proof.
  apply (validation_precedes_network Sample.env Sample.writable).
  vm_compute. reflexivity.
Defined.

(** *** String lengths *)

(** C7.  [verifyStringLen] accepts a string exactly when its length is the
    required one, whatever its characters, and throws otherwise; so a
    country code is rejected unless its length is 2 and a party id unless
    its length is 3.  [getPartyByOcpi], [setParty] and [setPartyRaw] run
    both checks on their arguments: with a country code or party id of the
    wrong length [getPartyByOcpi] throws the length error, and so do
    [setParty] and [setPartyRaw] of a writable wrapper (a read-only one has
    thrown already).  With the right lengths neither check throws and
    [getPartyByOcpi] goes on to the hex conversion: it queries the contract
    with the two converted identifiers, or throws what the conversion
    throws. *)
Theorem verifyStringLen_exact (E : Env) (this : Registry)
    (cc pid : string) (roles : list nat) (operator signer : string) :
  (∀ str len, verifyStringLen str len = inr () ↔ String.length str = len)
  ∧ (∀ str len, String.length str ≠ len →
       verifyStringLen str len = inl (InvalidStringLength len str))
  ∧ (∀ e, first_error [verifyStringLen cc 2; verifyStringLen pid 3] = Some e →
       (e = InvalidStringLength 2 cc ∨ e = InvalidStringLength 3 pid)
       ∧ getPartyByOcpi E this cc pid = Throw e
       ∧ (mode this = ModeRW →
            setParty E this cc pid roles operator = Throw e
            ∧ setPartyRaw E this cc pid roles operator signer = Throw e))
  ∧ (String.length cc = 2 → String.length pid = 3 →
       first_error [verifyStringLen cc 2; verifyStringLen pid 3] = None
       ∧ (∀ country id,
            toHex E cc = inr country → toHex E pid = inr id →
            first_call (getPartyByOcpi E this cc pid)
            = Some (Sent (GetPartyDetailsByOcpi country id)))
       ∧ (∀ e, toHex E cc = inl e → getPartyByOcpi E this cc pid = Throw e)
       ∧ (∀ country e,
            toHex E cc = inr country → toHex E pid = inl e →
            getPartyByOcpi E this cc pid = Throw e)).
Proof.
  split; [apply verifyStringLen_ok|]. split; [apply verifyStringLen_error|].
  split.
  - intros e Hfirst. split.
    + cbn in Hfirst. unfold verifyStringLen in Hfirst.
      repeat case_decide; naive_solver.
    + split.
      * unfold_methods. cbn in Hfirst |- *.
        destruct (verifyStringLen cc 2) as [?|[]];
          destruct (verifyStringLen pid 3) as [?|[]]; cbn in *; congruence.
      * intros Hrw. apply verifyWritable_ok in Hrw. unfold_methods.
        rewrite Hrw. cbn in Hfirst |- *.
        destruct (verifyStringLen cc 2) as [?|[]];
          destruct (verifyStringLen pid 3) as [?|[]]; cbn in *;
          split; congruence.
  - intros Hcc Hpid.
    apply verifyStringLen_ok in Hcc, Hpid. unfold_methods.
    rewrite Hcc, Hpid. cbn. split; [done|]. split; [|split].
    + by intros country id -> ->.
    + by intros e ->.
    + by intros country e -> ->.
Qed.

Lemma verifyStringLen_exact_witness :
  verifyStringLen "4!" 2 = inr ()
  ∧ verifyStringLen "deu" 2 = inl (InvalidStringLength 2 "deu")
  ∧ getPartyByOcpi Sample.env Sample.read_only "deu" "abc"
    = Throw (InvalidStringLength 2 "deu")
  ∧ first_call (getPartyByOcpi Sample.env Sample.read_only "4!" "a-1")
    = Some (Sent (GetPartyDetailsByOcpi "0x3421" "0x412d31"))
  ∧ getPartyByOcpi Sample.env Sample.read_only "de" "1.5"
    = Throw (InvalidNumber "1.5").
Proof.
  destruct (verifyStringLen_exact Sample.env Sample.read_only "deu" "abc" []
              "" "") as (Hok & Herr & Hops & _).
  destruct (verifyStringLen_exact Sample.env Sample.read_only "4!" "a-1" []
              "" "") as (_ & _ & _ & Hpass).
  destruct (verifyStringLen_exact Sample.env Sample.read_only "de" "1.5" []
              "" "") as (_ & _ & _ & Hthrow).
  split; [by apply Hok|]. split; [by apply Herr|]. split; [|split].
  - apply (Hops (InvalidStringLength 2 "deu")). reflexivity.
  - destruct (Hpass eq_refl eq_refl) as (_ & Hcall & _).
    apply Hcall; reflexivity.
  - destruct (Hthrow eq_refl eq_refl) as (_ & _ & _ & Hpid).
    apply (Hpid "0x4445"); reflexivity.
Defined.

(** *** Addresses *)

(** C10.  [getPartyByAddress] starts with the contract query on the string
    it was given, whatever that string is, also when [verifyAddress]
    rejects it; [getNode] throws the error of [verifyAddress] for such a
    string and queries the contract only for a string that passes. *)
Theorem getPartyByAddress_forwards_unchecked (E : Env) (this : Registry)
    (addr : string) :
  first_call (getPartyByAddress E this addr)
  = Some (Sent (GetPartyDetailsByAddress addr))
  ∧ (∀ e, verifyAddress E addr = inl e →
       getNode E this addr = Throw e
       ∧ first_call (getPartyByAddress E this addr)
         = Some (Sent (GetPartyDetailsByAddress addr)))
  ∧ (verifyAddress E addr = inr () →
       first_call (getNode E this addr) = Some (Sent (GetNode addr))).
Proof.
  split; [done|]. split.
  - intros e He. unfold getNode. by rewrite He.
  - intros Hok. unfold getNode. by rewrite Hok.
Qed.

Lemma getPartyByAddress_forwards_unchecked_witness :
  getNode Sample.env Sample.read_only "not an address"
  = Throw (InvalidAddress "not an address")
  ∧ first_call (getPartyByAddress Sample.env Sample.read_only "not an address")
    = Some (Sent (GetPartyDetailsByAddress "not an address")).
Proof.
  destruct (getPartyByAddress_forwards_unchecked Sample.env Sample.read_only
              "not an address") as (_ & Hbad & _).
  apply Hbad. reflexivity.
Defined.




(** *** Raw operations *)

Lemma sign_operation_signature (E : Env) (kind : OpKind) (args : list arg)
    (w : Wallet) (sig : Signature) :
  sign_operation E kind args w = inr sig →
  validate_args E args = inr ()
  ∧ Signer_sign E (Digest E (Encode E kind args)) (privateKey w) = Some sig.
Proof.
  unfold sign_operation. destruct (validate_args E args) as [?|[]]; [done|].
  cbn. destruct (Signer_sign E _ _) as [sig'|]; [|done]. by intros [= <-].
Qed.

(** A raw method submits, with its first call, the address of the key it
    was given, the arguments it handed to the signing helper and the
    signature the helper returned; it submits nothing when a check fails,
    when a hex conversion throws, when the key is rejected or when the
    helper throws. *)
Lemma raw_submission (E : Env) (this : Registry) (o : operation)
    (key : string) :
  raw_signer o = Some key →
  submitted (invoke E this o) =
    if decide (first_error (checks E this o) = None)
    then
      p ← payload E o;
      a ← computeAddress E key;
      sig ← succeeded (sign_operation E p.1 p.2 (mkWallet key a));
      Some (mkDelegated a p.1 p.2 sig)
    else None.
Proof.
  intros Hkey.
  destruct o; try discriminate Hkey; injection Hkey as <-;
    unfold invoke; rewrite submitted_fmap; unfold_methods;
    cbn [checks first_error payload];
    repeat match goal with
      | |- context [verifyWritable ?t] =>
          destruct (verifyWritable t) as [?|[]]; cbn;
          try (by rewrite decide_False)
      | |- context [verifyStringLen ?s ?n] =>
          destruct (verifyStringLen s n) as [?|[]]; cbn;
          try (by rewrite decide_False)
      | |- context [verifyAddress ?E' ?a] =>
          destruct (verifyAddress E' a) as [?|[]]; cbn;
          try (by rewrite decide_False)
      end;
    rewrite decide_True by done; unfold toHex;
    repeat match goal with
      | |- context [web3_toHex ?E' ?s] =>
          destruct (web3_toHex E' s) as [?|]; cbn; try done
      end;
    unfold Wallet_new; destruct (computeAddress E _) as [a|]; cbn; try done;
    unfold sign_setNodeRaw, sign_deleteNodeRaw, sign_setPartyRaw,
      sign_setPartyModulesRaw, sign_deletePartyRaw;
    match goal with
    | |- context [sign_operation ?E' ?k ?args ?w] =>
        by destruct (sign_operation E' k args w) as [?|[? ? ?]]
    end.
Qed.

(** What a raw method submits, taken apart. *)
Lemma raw_submission_Some (E : Env) (this : Registry) (o : operation)
    (key : string) (d : Delegated) :
  raw_signer o = Some key →
  submitted (invoke E this o) = Some d →
  first_error (checks E this o) = None
  ∧ payload E o = Some (kind d, arguments d)
  ∧ computeAddress E key = Some (claimed d)
  ∧ sign_operation E (kind d) (arguments d) (mkWallet key (claimed d))
    = inr (signature d).
Proof.
  intros Hkey Hd. rewrite (raw_submission E this o key Hkey) in Hd.
  case_decide as Hchecks; [|done].
  destruct (payload E o) as [[k args]|]; [|done]. cbn in Hd.
  destruct (computeAddress E key) as [a|]; [|done]. cbn in Hd.
  destruct (sign_operation E k args (mkWallet key a)) as [?|sig] eqn:Hsign;
    [done|].
  by injection Hd as <-.
Qed.

Lemma raw_signer_is_write (o : operation) (key : string) :
  raw_signer o = Some key → is_write o = true.
Proof. by destruct o. Qed.

(** The first event of a run is the first call of the program. *)
Lemma run_head {A} (L : Ledger) (p : prog A) (σ : lstate L) :
  match (run L p σ).2 with
  | [] => True
  | ev :: _ => event_delegated ev = submitted p
  end.
Proof.
  destruct p as [a|e|R via c k]; [done|done|]. cbn.
  destruct (respond L via R c σ) as [[e|r] σ1]; [done|].
  by destruct (run L (k r) σ1) as [[out σ2] evs].
Qed.

Lemma throw_course (L : Ledger) (via : Contract) (σ : lstate L) (e : error) :
  write_course L via σ (run L (Throw e) σ).
Proof. by left. Qed.

Lemma submit_course (L : Ledger) (this : Registry) (σ : lstate L)
    (c : call Tx) :
  is_submission c = true →
  write_course L (registry this) σ
    (run L (VTx <$> (tx ← await (registry this) c; mined this tx)) σ).
Proof.
  intros Hc. rewrite run_fmap. unfold await, mined.
  cbn [mbind prog_bind prog_bind_def run].
  destruct (respond L _ _ c σ) as [[e|tx] σ1]; cbn.
  { right. left. eauto. }
  destruct (respond L _ _ (Wait tx) σ1) as [[e|receipt] σ2]; cbn.
  - right. right. eauto.
  - eauto 10.
Qed.

(** Every write follows the course of a write on the wrapper's handle. *)
Lemma writes_follow_course (E : Env) (this : Registry) (o : operation)
    (L : Ledger) (σ : lstate L) :
  is_write o = true →
  write_course L (registry this) σ (run L (invoke E this o) σ).
Proof.
  intros Hwrite.
  destruct o; try discriminate Hwrite; unfold_methods; unfold toHex;
    repeat match goal with
      | |- context [verifyWritable ?t] =>
          destruct (verifyWritable t) as [?|[]];
          cbn [lift mbind prog_bind prog_bind_def];
          try apply throw_course
      | |- context [verifyStringLen ?s ?n] =>
          destruct (verifyStringLen s n) as [?|[]];
          cbn [lift mbind prog_bind prog_bind_def];
          try apply throw_course
      | |- context [verifyAddress ?E' ?a] =>
          destruct (verifyAddress E' a) as [?|[]];
          cbn [lift mbind prog_bind prog_bind_def];
          try apply throw_course
      | |- context [web3_toHex ?E' ?s] =>
          destruct (web3_toHex E' s) as [?|];
          cbn [lift mbind prog_bind prog_bind_def];
          try apply throw_course
      | |- context [URL_new ?E' ?d] =>
          destruct (URL_new E' d) as [?|?];
          cbn [lift mbind prog_bind prog_bind_def];
          try apply throw_course
      | |- context [Wallet_new ?E' ?k] =>
          destruct (Wallet_new E' k) as [?|?];
          cbn [lift mbind prog_bind prog_bind_def];
          try apply throw_course
      | |- context [sign_setNodeRaw ?E' ?d ?w] =>
          destruct (sign_setNodeRaw E' d w) as [?|?];
          cbn [lift mbind prog_bind prog_bind_def];
          try apply throw_course
      | |- context [sign_deleteNodeRaw ?E' ?w] =>
          destruct (sign_deleteNodeRaw E' w) as [?|?];
          cbn [lift mbind prog_bind prog_bind_def];
          try apply throw_course
      | |- context [sign_setPartyRaw ?E' ?c ?i ?r ?op ?w] =>
          destruct (sign_setPartyRaw E' c i r op w) as [?|?];
          cbn [lift mbind prog_bind prog_bind_def];
          try apply throw_course
      | |- context [sign_setPartyModulesRaw ?E' ?s ?r ?w] =>
          destruct (sign_setPartyModulesRaw E' s r w) as [?|?];
          cbn [lift mbind prog_bind prog_bind_def];
          try apply throw_course
      | |- context [sign_deletePartyRaw ?E' ?w] =>
          destruct (sign_deletePartyRaw E' w) as [?|?];
          cbn [lift mbind prog_bind prog_bind_def];
          try apply throw_course
      end;
    by apply submit_course.
Qed.

(** In the course of a write every call is made on the one handle, and only
    the first call can carry a delegated operation. *)
Lemma write_course_events (L : Ledger) (via : Contract) (σ : lstate L)
    (outcome : result value * lstate L * list event) :
  write_course L via σ outcome →
  Forall (λ ev, event_via ev = via) outcome.2
  ∧ Forall (λ ev, event_delegated ev = None) (tail outcome.2).
Proof.
  destruct outcome as [[[e|v] σ'] evs]; cbn.
  - intros [[-> _]|[(c & _ & ->)|(c & tx & _ & ->)]]; cbn;
      split; by repeat constructor.
  - intros (c & tx & receipt & _ & -> & _). cbn.
    split; by repeat constructor.
Qed.

Lemma constructor_connected (E : Env) (environment : string)
    (signer : option string) (this : Registry) :
  constructor E environment signer = inr this →
  connected_wallet (registry this) = wallet this.
Proof.
  unfold constructor.
  destruct (networks E !! environment) as [net|]; [|by case_decide].
  destruct signer as [key|]; [case_decide|].
  - by intros [= <-].
  - destruct (Wallet_new E key) as [?|w]; cbn; [done|]. by intros [= <-].
  - by intros [= <-].
Qed.

(** C9.  A raw operation claims as signer, in the first argument of its
    contract call, the address of the private key it was given.  Whatever
    it submits carries the address derived from that key, and it does
    submit when its checks pass, the hex conversions succeed, the key has
    an address and the signing helper returns a signature.  The wallet the
    wrapper was configured with only sends: every call of the run is made
    on the wrapper's own contract handle, which the constructor connected
    to that wallet, while what is claimed and signed is the same for every
    wrapper of the same mode, whatever its wallet. *)
Theorem raw_claims_address_of_supplied_key (E : Env) (this : Registry)
    (o : operation) (key : string) :
  raw_signer o = Some key →
  (∀ d, submitted (invoke E this o) = Some d →
     computeAddress E key = Some (claimed d))
  ∧ (∀ a kind args sig,
       first_error (checks E this o) = None →
       payload E o = Some (kind, args) →
       computeAddress E key = Some a →
       sign_operation E kind args (mkWallet key a) = inr sig →
       submitted (invoke E this o) = Some (mkDelegated a kind args sig))
  ∧ (∀ (L : Ledger) (σ : lstate L),
       Forall (λ ev,
                 event_via ev = registry this
                 ∧ ∀ d, event_delegated ev = Some d →
                        computeAddress E key = Some (claimed d))
         (run L (invoke E this o) σ).2)
  ∧ (∀ this', mode this' = mode this →
       submitted (invoke E this' o) = submitted (invoke E this o))
  ∧ (∀ environment signer,
       constructor E environment signer = inr this →
       connected_wallet (registry this) = wallet this).
Proof.
  intros Hkey.
  assert (∀ d, submitted (invoke E this o) = Some d →
               computeAddress E key = Some (claimed d)) as Hclaimed.
  { intros d Hd.
    by destruct (raw_submission_Some E this o key d Hkey Hd) as (_ & _ & ? & _). }
  split; [exact Hclaimed|]. split; [|split; [|split]].
  - intros a kind args sig Hchecks Hpayload Ha Hsign.
    rewrite (raw_submission E this o key Hkey), decide_True by done.
    rewrite Hpayload. cbn. rewrite Ha. cbn. by rewrite Hsign.
  - intros L σ.
    pose proof (writes_follow_course E this o L σ
                  (raw_signer_is_write o key Hkey)) as Hcourse.
    apply write_course_events in Hcourse as [Hvia Htail].
    pose proof (run_head L (invoke E this o) σ) as Hhead.
    destruct ((run L (invoke E this o) σ).2) as [|ev evs]; [constructor|].
    cbn in Htail. apply Forall_cons in Hvia as [Hev Hvia]. constructor.
    + split; [done|]. intros d Hd. apply Hclaimed. by rewrite <- Hhead.
    + apply Forall_forall. intros ev' Hin. split.
      * by eapply Forall_forall in Hvia.
      * intros d Hd. eapply Forall_forall in Htail; [|exact Hin].
        cbn in Htail. congruence.
  - intros this' Hmode.
    rewrite !(raw_submission E _ o key Hkey).
    assert (checks E this' o = checks E this o) as ->; [|done].
    destruct o; cbn; unfold verifyWritable; by rewrite ?Hmode.
  - intros environment signer. apply constructor_connected.
Qed.

Lemma raw_claims_address_of_supplied_key_witness :
  submitted (invoke Sample.env Sample.writable (ODeleteNodeRaw "owner"))
  = Some (mkDelegated "0xowner" KDeleteNode []
            (mkSignature 27 "owner" "#deleteNode()"))
  ∧ Forall (λ ev, event_via ev = registry Sample.writable)
      (run (Sample.canned [] Sample.absent_party)
         (invoke Sample.env Sample.writable (ODeleteNodeRaw "owner")) ()).2.
Proof.
  destruct (raw_claims_address_of_supplied_key Sample.env Sample.writable
              (ODeleteNodeRaw "owner") "owner" eq_refl)
    as (_ & Hsubmits & Hvia & _).
  split.
  - apply Hsubmits; reflexivity.
  - eapply Forall_impl; [apply Hvia|]. by intros ev [Hev _].
Defined.

(** C8.  [toHex] of the wrapper is the library's [toHex] after
    [toUpperCase].  With a country code of length 2 and a party id of length
    3 whose upper-cased forms the library converts, [getPartyByOcpi] queries
    the contract with the two conversions; [setParty] of a writable wrapper
    with an accepted operator submits them; and [setPartyRaw] hands them to
    the signing helper and submits them with the signature it returns.
    Whatever [setPartyRaw] submits thus carries the conversions of the
    upper-cased identifiers, both as contract arguments and inside the
    payload whose digest was signed.  When the library throws on one of the
    upper-cased identifiers, none of the three makes a call. *)
Theorem identifiers_upper_cased_before_hex (E : Env) (this : Registry)
    (cc pid : string) (roles : list nat) (operator signer : string) :
  String.length cc = 2 →
  String.length pid = 3 →
  (∀ country id,
     web3_toHex E (toUpperCase E cc) = Some country →
     web3_toHex E (toUpperCase E pid) = Some id →
     first_call (getPartyByOcpi E this cc pid)
     = Some (Sent (GetPartyDetailsByOcpi country id))
     ∧ (mode this = ModeRW → is_Some (getAddress E operator) →
          first_call (setParty E this cc pid roles operator)
          = Some (Sent (SetParty country id roles operator))
          ∧ ∀ w sig,
              Wallet_new E signer = inr w →
              sign_setPartyRaw E country id roles operator w = inr sig →
              first_call (setPartyRaw E this cc pid roles operator signer)
              = Some (Sent (SetPartyRaw (address w) country id roles operator
                              (sig_v sig) (sig_r sig) (sig_s sig)))))
  ∧ (∀ d, submitted (setPartyRaw E this cc pid roles operator signer) = Some d →
       ∃ country id,
         web3_toHex E (toUpperCase E cc) = Some country
         ∧ web3_toHex E (toUpperCase E pid) = Some id
         ∧ arguments d
           = [AIdent 2 country; AIdent 3 id; AEnums roles; AAddress operator]
         ∧ Signer_sign E (Digest E (Encode E KSetParty (arguments d))) signer
           = Some (signature d))
  ∧ (web3_toHex E (toUpperCase E cc) = None
     ∨ web3_toHex E (toUpperCase E pid) = None →
     first_call (getPartyByOcpi E this cc pid) = None
     ∧ first_call (setParty E this cc pid roles operator) = None
     ∧ first_call (setPartyRaw E this cc pid roles operator signer) = None).
Proof.
  intros Hcc Hpid. apply verifyStringLen_ok in Hcc, Hpid.
  split; [|split].
  - intros country id Hcountry Hid. split.
    + unfold getPartyByOcpi, toHex. by rewrite Hcc, Hpid, Hcountry, Hid.
    + intros Hrw Hop. apply verifyWritable_ok in Hrw.
      apply verifyAddress_ok in Hop. split.
      * unfold setParty, toHex. by rewrite Hrw, Hcc, Hpid, Hop, Hcountry, Hid.
      * intros w sig Hw Hsig. unfold setPartyRaw, toHex.
        rewrite Hrw, Hcc, Hpid, Hop, Hcountry, Hid. cbn.
        rewrite Hw. cbn. by rewrite Hsig.
  - intros d Hd.
    destruct (raw_submission_Some E this
                (OSetPartyRaw cc pid roles operator signer) signer d eq_refl)
      as (_ & Hpayload & _ & Hsign).
    { unfold invoke. by rewrite submitted_fmap. }
    cbn in Hpayload.
    destruct (web3_toHex E (toUpperCase E cc)) as [country|]; [|done].
    destruct (web3_toHex E (toUpperCase E pid)) as [id|]; [|done].
    cbn in Hpayload. injection Hpayload as Hkind Hargs.
    exists country, id. split; [done|]. split; [done|]. split; [done|].
    apply sign_operation_signature in Hsign as [_ Hsign].
    by rewrite <- Hkind in Hsign.
  - intros Hthrow. unfold getPartyByOcpi, setParty, setPartyRaw, toHex.
    rewrite Hcc, Hpid.
    destruct (verifyWritable this) as [?|[]];
      destruct (verifyAddress E operator) as [?|[]];
      destruct Hthrow as [-> | ->];
      destruct (web3_toHex E _) as [?|]; done.
Qed.

Lemma identifiers_upper_cased_before_hex_witness :
  toHex Sample.env "de" = inr "0x4445"
  ∧ first_call (getPartyByOcpi Sample.env Sample.read_only "de" "abc")
    = Some (Sent (GetPartyDetailsByOcpi "0x4445" "0x414243"))
  ∧ first_call (setPartyRaw Sample.env Sample.writable "de" "abc" [0]
                  "0x9bc1169ca09555bf2721a5c9ec6d69c8073bfeb4" "owner")
    = Some (Sent (SetPartyRaw "0xowner" "0x4445" "0x414243" [0]
                    "0x9bc1169ca09555bf2721a5c9ec6d69c8073bfeb4" 27 "owner"
                    (Sample.digest
                       (Sample.encode KSetParty
                          [AIdent 2 "0x4445"; AIdent 3 "0x414243"; AEnums [0];
                           AAddress
                             "0x9bc1169ca09555bf2721a5c9ec6d69c8073bfeb4"]))))
  ∧ first_call (setParty Sample.env Sample.writable "de" "1.5" [0]
                  "0x9bc1169ca09555bf2721a5c9ec6d69c8073bfeb4")
    = None.
Proof.
  split; [reflexivity|].
  destruct (identifiers_upper_cased_before_hex Sample.env Sample.read_only
              "de" "abc" [] "" "" eq_refl eq_refl) as (Hread & _).
  destruct (Hread "0x4445" "0x414243" eq_refl eq_refl) as [Hquery _].
  split; [exact Hquery|].
  destruct (identifiers_upper_cased_before_hex Sample.env Sample.writable
              "de" "abc" [0] "0x9bc1169ca09555bf2721a5c9ec6d69c8073bfeb4"
              "owner" eq_refl eq_refl) as (Hcalls & _).
  destruct (Hcalls "0x4445" "0x414243" eq_refl eq_refl) as [_ Hwrite].
  assert (is_Some (getAddress Sample.env
                     "0x9bc1169ca09555bf2721a5c9ec6d69c8073bfeb4")) as Hop
    by (vm_compute; eauto).
  destruct (Hwrite eq_refl Hop) as [_ Hraw].
  split.
  - apply (Hraw (mkWallet "owner" "0xowner")
             (mkSignature 27 "owner"
                (Sample.digest
                   (Sample.encode KSetParty
                      [AIdent 2 "0x4445"; AIdent 3 "0x414243"; AEnums [0];
                       AAddress
                         "0x9bc1169ca09555bf2721a5c9ec6d69c8073bfeb4"]))));
      vm_compute; reflexivity.
  - destruct (identifiers_upper_cased_before_hex Sample.env Sample.writable
                "de" "1.5" [0] "0x9bc1169ca09555bf2721a5c9ec6d69c8073bfeb4"
                "owner" eq_refl eq_refl) as (_ & _ & Hthrow).
    destruct Hthrow as (_ & Hnone & _); [by right | exact Hnone].
Defined.

(** C2.  [setNodeRaw] does not normalize its url: called with
    [https://node.example.org/path?x=1], whatever it submits carries that
    very string as the domain argument of the contract call, not the origin
    [https://node.example.org], and the signature it submits was made over
    the encoding of that string.  [setNode], on the same input, submits the
    origin that [new URL] computes. *)
Theorem setNodeRaw_submits_url_as_given (E : Env) (this : Registry)
    (signer : string) (d : Delegated) :
  submitted (setNodeRaw E this "https://node.example.org/path?x=1" signer)
  = Some d →
  arguments d = [AString "https://node.example.org/path?x=1"]
  ∧ arguments d ≠ [AString "https://node.example.org"]
  ∧ Signer_sign E
      (Digest E (Encode E KSetNode
                  [AString "https://node.example.org/path?x=1"])) signer
    = Some (signature d)
  ∧ (mode this = ModeRW →
     URL_origin E "https://node.example.org/path?x=1"
     = Some "https://node.example.org" →
     first_call (setNode E this "https://node.example.org/path?x=1")
     = Some (Sent (SetNode "https://node.example.org"))).
Proof.
  intros Hd.
  destruct (raw_submission_Some E this
              (OSetNodeRaw "https://node.example.org/path?x=1" signer)
              signer d eq_refl) as (_ & Hpayload & _ & Hsign).
  { unfold invoke. by rewrite submitted_fmap. }
  cbn in Hpayload. injection Hpayload as Hkind Hargs.
  apply sign_operation_signature in Hsign as [_ Hsign].
  rewrite <- Hkind, <- Hargs in Hsign. rewrite <- Hargs.
  split; [done|]. split; [done|]. split; [done|].
  intros Hrw Horigin. apply verifyWritable_ok in Hrw.
  unfold setNode, URL_new. by rewrite Hrw, Horigin.
Qed.

Lemma setNodeRaw_submits_url_as_given_witness :
  first_call (setNodeRaw Sample.env Sample.writable
                "https://node.example.org/path?x=1" "owner")
  = Some (Sent (SetNodeRaw "0xowner" "https://node.example.org/path?x=1" 27
                  "owner" "#setNode(string:https://node.example.org/path?x=1)"))
  ∧ first_call (setNode Sample.env Sample.writable
                  "https://node.example.org/path?x=1")
    = Some (Sent (SetNode "https://node.example.org")).
Proof.
  split; [vm_compute; reflexivity|].
  eapply (setNodeRaw_submits_url_as_given Sample.env Sample.writable "owner");
    [vm_compute; reflexivity | reflexivity | vm_compute; reflexivity].
Defined.

(** *** Absent parties *)

Lemma prop_Object_assign (target source : jsobj) (name : string) :
  prop (Object_assign target source) name
  = match source !! name with
    | Some v => v
    | None => prop target name
    end.
Proof.
  unfold prop, Object_assign. rewrite lookup_union.
  by destruct (source !! name), (target !! name).
Qed.

(** A property the wrapper does not supply is read from the response. *)
Lemma prop_Object_assign_response (target source : jsobj) (name : string) :
  target !! name = None →
  prop (Object_assign target source) name = prop source name.
Proof.
  intros Hnone. rewrite prop_Object_assign. unfold prop. rewrite Hnone.
  by destruct (source !! name).
Qed.

Lemma toPartyDetails_operator (E : Env) (input : jsobj) (d : PartyDetails) :
  toPartyDetails E input = inr d →
  pn_operator (node d) = prop input "operatorAddress".
Proof.
  unfold toPartyDetails.
  destruct (utf8 E (prop input "countryCode")); cbn; [done|].
  destruct (utf8 E (prop input "partyId")); cbn; [done|].
  destruct (enum_names (RoleNames E) (prop input "roles")); cbn; [done|].
  destruct (enum_names (ModuleNames E) (prop input "modulesSender")); cbn;
    [done|].
  destruct (enum_names (ModuleNames E) (prop input "modulesReceiver")); cbn;
    [done|].
  by intros [= <-].
Qed.

Lemma failure_cons (ev : event) (evs : list event) (e : error) :
  failure evs = Some e → failure (ev :: evs) = Some e.
Proof.
  unfold failure. rewrite last_cons. by destruct (last evs).
Qed.

Lemma party_responses_query (via : Contract) (addr : string)
    (details : jsobj) (evs : list event) :
  party_responses
    (Event via (GetPartyDetailsByAddress addr) (inr details) :: evs)
  = (addr, details) :: party_responses evs.
Proof. reflexivity. Qed.

(** C4.  The single-party reads translate the response before they look at
    its operator.  For a response whose operator is the zero address they
    return "not found" when the response translates, whatever its other
    fields hold; when the translation throws, as it does for a country code
    that is no UTF-8 text, they throw that error instead.  [getAllParties]
    tests the operator first: given the same response for a listed address
    it skips the entry without translating it and returns the empty
    list. *)
Theorem absent_party_read_throws_where_listing_skips (E : Env)
    (this : Registry) (addr : string) (L : Ledger) (σ σ1 σ2 : lstate L)
    (details : jsobj) :
  prop details "operatorAddress" = JStr ZERO_ADDRESS →
  (respond L (registry this) _ (GetPartyDetailsByAddress addr) σ
   = (inr details, σ1) →
   let input := Object_assign {[ "partyAddress" := JStr addr ]} details in
   let evs := [Event (registry this) (GetPartyDetailsByAddress addr)
                 (inr details)] in
   (∀ d, toPartyDetails E input = inr d →
      run L (getPartyByAddress E this addr) σ = (inr None, σ1, evs))
   ∧ (∀ e, toPartyDetails E input = inl e →
        run L (getPartyByAddress E this addr) σ = (inl e, σ1, evs)))
  ∧ (∀ cc pid country id,
       String.length cc = 2 → String.length pid = 3 →
       toHex E cc = inr country → toHex E pid = inr id →
       respond L (registry this) _ (GetPartyDetailsByOcpi country id) σ
       = (inr details, σ1) →
       let input :=
         Object_assign {[ "countryCode" := JStr country;
                          "partyId" := JStr id ]} details in
       let evs := [Event (registry this) (GetPartyDetailsByOcpi country id)
                     (inr details)] in
       (∀ d, toPartyDetails E input = inr d →
          run L (getPartyByOcpi E this cc pid) σ = (inr None, σ1, evs))
       ∧ (∀ e, toPartyDetails E input = inl e →
            run L (getPartyByOcpi E this cc pid) σ = (inl e, σ1, evs)))
  ∧ (respond L (registry this) _ GetParties σ = (inr [addr], σ1) →
     respond L (registry this) _ (GetPartyDetailsByAddress addr) σ1
     = (inr details, σ2) →
     run L (getAllParties E this) σ
     = (inr [], σ2,
        [Event (registry this) GetParties (inr [addr]);
         Event (registry this) (GetPartyDetailsByAddress addr)
           (inr details)])).
Proof.
  intros Hzero. split; [|split].
  - intros Hresp input evs. unfold getPartyByAddress, await.
    cbn [mbind prog_bind prog_bind_def run]. rewrite Hresp. fold input.
    split.
    + intros d Hd. rewrite Hd. cbn. unfold unless_absent.
      rewrite (toPartyDetails_operator E input d Hd). unfold input.
      rewrite prop_Object_assign_response, Hzero by done.
      by rewrite decide_False by (by intros Hne).
    + intros e He. by rewrite He.
  - intros cc pid country id Hcc Hpid Hcountry Hid Hresp input evs.
    apply verifyStringLen_ok in Hcc, Hpid. unfold getPartyByOcpi, await.
    rewrite Hcc, Hpid, Hcountry, Hid.
    cbn [lift mbind prog_bind prog_bind_def run]. rewrite Hresp. fold input.
    split.
    + intros d Hd. rewrite Hd. cbn. unfold unless_absent.
      rewrite (toPartyDetails_operator E input d Hd). unfold input.
      rewrite prop_Object_assign_response, Hzero by done.
      by rewrite decide_False by (by intros Hne).
    + intros e He. by rewrite He.
  - intros Hparties Hresp. unfold getAllParties, await.
    cbn [mbind prog_bind prog_bind_def run getAllParties_loop].
    rewrite Hparties. cbn [getAllParties_loop]. unfold await.
    cbn [mbind prog_bind prog_bind_def run].
    rewrite Hresp, Hzero.
    by rewrite decide_False by (by intros Hne).
Qed.

Lemma absent_party_read_throws_where_listing_skips_witness :
  run (Sample.canned ["0xaa"] Sample.absent_undecodable)
    (getPartyByAddress Sample.env Sample.read_only "0xaa") ()
  = (inl InvalidUtf8, (),
     [Event (registry Sample.read_only) (GetPartyDetailsByAddress "0xaa")
        (inr Sample.absent_undecodable)])
  ∧ run (Sample.canned ["0xaa"] Sample.absent_undecodable)
      (getAllParties Sample.env Sample.read_only) ()
    = (inr [], (),
       [Event (registry Sample.read_only) GetParties (inr ["0xaa"]);
        Event (registry Sample.read_only) (GetPartyDetailsByAddress "0xaa")
          (inr Sample.absent_undecodable)]).
Proof.
  destruct (absent_party_read_throws_where_listing_skips Sample.env
              Sample.read_only "0xaa"
              (Sample.canned ["0xaa"] Sample.absent_undecodable) () () ()
              Sample.absent_undecodable)
    as (Hread & _ & Hlisting); [vm_compute; reflexivity|].
  split.
  - apply Hread; [reflexivity | vm_compute; reflexivity].
  - apply Hlisting; reflexivity.
Defined.

(** ** Further properties of the wrapper *)

(** *** Runs *)

Lemma node_responses_query (via : Contract) (operator url : string)
    (evs : list event) :
  node_responses (Event via (GetNode operator) (inr url) :: evs)
  = mkNode operator url :: node_responses evs.
Proof. reflexivity. Qed.

(** *** Node reads *)

(** X1.  For an operator that passes the address check, [getNode] makes one
    query; it resolves to "absent" exactly when the contract answers the
    empty string and to the answered url otherwise, and it fails with the
    ledger's error when the query is rejected. *)
Theorem getNode_absent_iff_empty_answer (E : Env) (this : Registry)
    (operator : string) (L : Ledger) (σ σ' : lstate L) :
  is_Some (getAddress E operator) →
  (∀ node,
     respond L (registry this) _ (GetNode operator) σ = (inr node, σ') →
     ∃ out,
       run L (getNode E this operator) σ
       = (inr out, σ', [Event (registry this) (GetNode operator) (inr node)])
       ∧ (out = None ↔ node = "")
       ∧ (∀ url, out = Some url ↔ node = url ∧ url ≠ ""))
  ∧ (∀ e, respond L (registry this) _ (GetNode operator) σ = (inl e, σ') →
       run L (getNode E this operator) σ
       = (inl e, σ', [Event (registry this) (GetNode operator) (inl e)])).
Proof.
  intros Hok. apply verifyAddress_ok in Hok. unfold getNode, await.
  rewrite Hok. cbn [lift mbind prog_bind prog_bind_def run]. split.
  - intros node ->. eexists. split; [reflexivity|].
    case_decide as Hnode.
    + split; [done|]. intros url. split; [done|]. by intros [<- Hne].
    + split; [by split|]. intros url. split; [by intros [= <-]|].
      by intros [-> _].
  - by intros e ->.
Qed.

Lemma getNode_absent_iff_empty_answer_witness :
  run (Fixture.nodes_ledger
         [("0x9bc1169ca09555bf2721a5c9ec6d69c8073bfeb4", "https://a.example")])
    (getNode Sample.env Sample.read_only
       "0x00000000000000000000000000000000000000aa") 0
  = (inr None, 1,
     [Event (registry Sample.read_only)
        (GetNode "0x00000000000000000000000000000000000000aa") (inr "")]).
Proof.
  destruct (getNode_absent_iff_empty_answer Sample.env Sample.read_only
              "0x00000000000000000000000000000000000000aa"
              (Fixture.nodes_ledger
                 [("0x9bc1169ca09555bf2721a5c9ec6d69c8073bfeb4",
                   "https://a.example")]) 0 1) as [Hanswer _];
    [vm_compute; eauto|].
  destruct (Hanswer "") as (out & Hrun & Habsent & _);
    [vm_compute; reflexivity|].
  rewrite Hrun. by rewrite (proj2 Habsent eq_refl).
Defined.

(** The loop of [getAllNodes]: one query per operator, in order; the nodes
    it adds are the answers with a url. *)
Lemma getAllNodes_loop_run (via : Contract) (L : Ledger)
    (operators : list string) :
  ∀ (acc : list Node) (σ : lstate L),
    match run L (getAllNodes_loop via operators acc) σ with
    | (inr ns, _, evs) =>
        operator <$> node_responses evs = operators
        ∧ length evs = length operators
        ∧ ns = acc ++ filter has_url (node_responses evs)
        ∧ Forall (λ ev, event_via ev = via) evs
    | (inl e, _, evs) => failure evs = Some e
    end.
Proof.
  induction operators as [|op rest IH]; intros acc σ.
  - cbn. rewrite app_nil_r. by repeat split.
  - cbn [getAllNodes_loop]. unfold await.
    cbn [mbind prog_bind prog_bind_def run].
    destruct (respond L _ _ (GetNode op) σ) as [[e|u] σ1]; [done|].
    case_decide as Hu.
    + specialize (IH acc σ1).
      destruct (run L (getAllNodes_loop via rest acc) σ1)
        as [[[e|ns] σ2] evs].
      * by apply failure_cons.
      * destruct IH as (Hops & Hlen & -> & Hvia).
        rewrite node_responses_query, filter_cons_False
          by (intros Hne; apply Hne; exact Hu).
        cbn. rewrite Hops, Hlen. repeat split; try done. by constructor.
    + specialize (IH (acc ++ [mkNode op u]) σ1).
      destruct (run L (getAllNodes_loop via rest (acc ++ [mkNode op u])) σ1)
        as [[[e|ns] σ2] evs].
      * by apply failure_cons.
      * destruct IH as (Hops & Hlen & -> & Hvia).
        rewrite node_responses_query, filter_cons_True by done.
        cbn. rewrite Hops, Hlen, <- app_assoc.
        repeat split; try done. by constructor.
Qed.

(** X2.  [getAllNodes] asks for the operators and then queries each of them
    once, in the order given; it resolves to the answered nodes that have a
    url, in that order, so an operator whose answer is the empty string is
    left out.  It fails only when the ledger rejects a call, with the error
    of that call, which is then the last one made. *)
Theorem getAllNodes_lists_nodes_with_url (this : Registry) (L : Ledger)
    (σ : lstate L) :
  match run L (getAllNodes this) σ with
  | (inr ns, _, evs) =>
      ∃ operators evs',
        evs = Event (registry this) GetNodeOperators (inr operators) :: evs'
        ∧ Forall (λ ev, event_via ev = registry this) evs'
        ∧ operator <$> node_responses evs' = operators
        ∧ length evs' = length operators
        ∧ ns = filter has_url (node_responses evs')
        ∧ Forall (λ n, url n ≠ "") ns
  | (inl e, _, evs) => failure evs = Some e
  end.
Proof.
  unfold getAllNodes, await. cbn [mbind prog_bind prog_bind_def run].
  destruct (respond L _ _ GetNodeOperators σ) as [[e|operators] σ1]; [done|].
  pose proof (getAllNodes_loop_run (registry this) L operators [] σ1)
    as Hloop.
  destruct (run L (getAllNodes_loop (registry this) operators []) σ1)
    as [[[e|ns] σ2] evs].
  - by apply failure_cons.
  - destruct Hloop as (Hops & Hlen & -> & Hvia). exists operators, evs.
    repeat split; try done. apply Forall_forall. intros n Hn.
    by apply list_elem_of_filter in Hn as [Hn _].
Qed.


(** *** Reads and writes *)

Lemma getAllNodes_loop_queries (via : Contract) (L : Ledger)
    (operators : list string) :
  ∀ (acc : list Node) (σ : lstate L),
    Forall query_event (run L (getAllNodes_loop via operators acc) σ).2.
Proof.
  induction operators as [|op rest IH]; intros acc σ; [by constructor|].
  cbn [getAllNodes_loop]. unfold await.
  cbn [mbind prog_bind prog_bind_def run].
  destruct (respond L _ _ (GetNode op) σ) as [[e|u] σ1];
    [by repeat constructor|].
  case_decide.
  - specialize (IH acc σ1).
    destruct (run L (getAllNodes_loop via rest acc) σ1) as [[out σ2] evs].
    by constructor.
  - specialize (IH (acc ++ [mkNode op u]) σ1).
    destruct (run L (getAllNodes_loop via rest (acc ++ [mkNode op u])) σ1)
      as [[out σ2] evs].
    by constructor.
Qed.

Lemma getAllParties_loop_queries (E : Env) (via : Contract) (L : Ledger)
    (addrs : list string) :
  ∀ (acc : list PartyDetails) (σ : lstate L),
    Forall query_event (run L (getAllParties_loop E via addrs acc) σ).2.
Proof.
  induction addrs as [|addr rest IH]; intros acc σ; [by constructor|].
  cbn [getAllParties_loop]. unfold await.
  cbn [mbind prog_bind prog_bind_def run].
  destruct (respond L _ _ (GetPartyDetailsByAddress addr) σ)
    as [[e|details] σ1]; [by repeat constructor|].
  case_decide.
  - destruct (toPartyDetails E _) as [e|d];
      cbn [lift mbind prog_bind prog_bind_def run]; [by repeat constructor|].
    specialize (IH (acc ++ [d]) σ1).
    destruct (run L (getAllParties_loop E via rest (acc ++ [d])) σ1)
      as [[out σ2] evs].
    by constructor.
  - specialize (IH acc σ1).
    destruct (run L (getAllParties_loop E via rest acc) σ1) as [[out σ2] evs].
    by constructor.
Qed.

(** The calls of a read are queries. *)
Lemma read_events_query (E : Env) (this : Registry) (o : operation)
    (L : Ledger) (σ : lstate L) :
  is_write o = false →
  Forall query_event (run L (invoke E this o) σ).2.
Proof.
  intros Hread.
  destruct o; try discriminate Hread;
    unfold invoke; rewrite run_fmap_events.
  - unfold getNode, await.
    destruct (verifyAddress E operator0) as [e|[]];
      cbn [lift mbind prog_bind prog_bind_def run]; [by constructor|].
    destruct (respond L _ _ (GetNode operator0) σ) as [[e|u] σ1];
      by repeat constructor.
  - unfold getAllNodes, await. cbn [mbind prog_bind prog_bind_def run].
    destruct (respond L _ _ GetNodeOperators σ) as [[e|ops] σ1];
      [by repeat constructor|].
    pose proof (getAllNodes_loop_queries (registry this) L ops [] σ1)
      as Hloop.
    destruct (run L (getAllNodes_loop (registry this) ops []) σ1)
      as [[out σ2] evs].
    by constructor.
  - unfold getPartyByAddress, await. cbn [mbind prog_bind prog_bind_def run].
    destruct (respond L _ _ (GetPartyDetailsByAddress addr) σ)
      as [[e|details] σ1]; [by repeat constructor|].
    destruct (toPartyDetails E _) as [e|d]; by repeat constructor.
  - unfold getPartyByOcpi, await.
    destruct (verifyStringLen countryCode0 2) as [e|[]];
      cbn [lift mbind prog_bind prog_bind_def run]; [by constructor|].
    destruct (verifyStringLen partyId0 3) as [e|[]];
      cbn [lift mbind prog_bind prog_bind_def run]; [by constructor|].
    destruct (toHex E countryCode0) as [e|country];
      cbn [lift mbind prog_bind prog_bind_def run]; [by constructor|].
    destruct (toHex E partyId0) as [e|id];
      cbn [lift mbind prog_bind prog_bind_def run]; [by constructor|].
    destruct (respond L _ _ (GetPartyDetailsByOcpi _ _) σ)
      as [[e|details] σ1]; [by repeat constructor|].
    destruct (toPartyDetails E _) as [e|d]; by repeat constructor.
  - unfold getAllParties, await. cbn [mbind prog_bind prog_bind_def run].
    destruct (respond L _ _ GetParties σ) as [[e|addrs] σ1];
      [by repeat constructor|].
    pose proof (getAllParties_loop_queries E (registry this) L addrs [] σ1)
      as Hloop.
    destruct (run L (getAllParties_loop E (registry this) addrs []) σ1)
      as [[out σ2] evs].
    by constructor.
Qed.


Lemma getAllNodes_loop_blind (L : Ledger) (via via' : Contract)
    (operators : list string) :
  handle_blind L →
  ∀ (acc : list Node) (σ : lstate L),
    (run L (getAllNodes_loop via operators acc) σ).1
    = (run L (getAllNodes_loop via' operators acc) σ).1.
Proof.
  intros Hblind. induction operators as [|op rest IH]; intros acc σ; [done|].
  cbn [getAllNodes_loop]. unfold await.
  cbn [mbind prog_bind prog_bind_def run]. rewrite (Hblind via via').
  destruct (respond L _ _ (GetNode op) σ) as [[e|u] σ1]; [done|].
  case_decide.
  - specialize (IH acc σ1).
    destruct (run L (getAllNodes_loop via rest acc) σ1) as [[o1 s1] e1].
    by destruct (run L (getAllNodes_loop via' rest acc) σ1) as [[o2 s2] e2].
  - specialize (IH (acc ++ [mkNode op u]) σ1).
    destruct (run L (getAllNodes_loop via rest (acc ++ [mkNode op u])) σ1)
      as [[o1 s1] e1].
    by destruct (run L (getAllNodes_loop via' rest (acc ++ [mkNode op u])) σ1)
      as [[o2 s2] e2].
Qed.

Lemma getAllParties_loop_blind (E : Env) (L : Ledger) (via via' : Contract)
    (addrs : list string) :
  handle_blind L →
  ∀ (acc : list PartyDetails) (σ : lstate L),
    (run L (getAllParties_loop E via addrs acc) σ).1
    = (run L (getAllParties_loop E via' addrs acc) σ).1.
Proof.
  intros Hblind. induction addrs as [|addr rest IH]; intros acc σ; [done|].
  cbn [getAllParties_loop]. unfold await.
  cbn [mbind prog_bind prog_bind_def run]. rewrite (Hblind via via').
  destruct (respond L _ _ (GetPartyDetailsByAddress addr) σ)
    as [[e|details] σ1]; [done|].
  case_decide.
  - destruct (toPartyDetails E _) as [e|d];
      cbn [lift mbind prog_bind prog_bind_def run]; [done|].
    specialize (IH (acc ++ [d]) σ1).
    destruct (run L (getAllParties_loop E via rest (acc ++ [d])) σ1)
      as [[o1 s1] e1].
    by destruct (run L (getAllParties_loop E via' rest (acc ++ [d])) σ1)
      as [[o2 s2] e2].
  - specialize (IH acc σ1).
    destruct (run L (getAllParties_loop E via rest acc) σ1) as [[o1 s1] e1].
    by destruct (run L (getAllParties_loop E via' rest acc) σ1)
      as [[o2 s2] e2].
Qed.

Lemma run_fmap_result {A B} (f : A → B) (L : Ledger) (p q : prog A)
    (σ : lstate L) :
  (run L p σ).1 = (run L q σ).1 →
  (run L (f <$> p) σ).1 = (run L (f <$> q) σ).1.
Proof.
  rewrite !run_fmap.
  destruct (run L p σ) as [[o1 s1] e1], (run L q σ) as [[o2 s2] e2]. cbn.
  by intros [= -> ->].
Qed.

(** X3.  A read operation only ever queries the contract: against any
    ledger, every call of [getNode], [getAllNodes], [getPartyByAddress],
    [getPartyByOcpi] and [getAllParties] is one of the five contract
    queries, never a transaction and never a wait.  A read looks at nothing
    of the wrapper but its contract handle: two wrappers with the same
    handle read alike, whatever their mode, wallet and provider; and
    against a ledger that answers alike on every handle, the read of any
    two wrappers has the same outcome and leaves the same ledger state. *)
Theorem reads_only_query (E : Env) (this this' : Registry) (o : operation)
    (L : Ledger) (σ : lstate L) :
  is_write o = false →
  Forall query_event (run L (invoke E this o) σ).2
  ∧ (registry this' = registry this → invoke E this' o = invoke E this o)
  ∧ (handle_blind L →
     (run L (invoke E this' o) σ).1 = (run L (invoke E this o) σ).1).
Proof.
  intros Hread. split; [by apply read_events_query|]. split.
  - destruct this as [p w c m], this' as [p' w' c' m']. cbn. intros ->.
    destruct o; try discriminate Hread; reflexivity.
  - intros Hblind.
    destruct o; try discriminate Hread; unfold invoke;
      apply run_fmap_result.
    + unfold getNode, await.
      destruct (verifyAddress E operator0) as [e|[]];
        cbn [lift mbind prog_bind prog_bind_def run]; [done|].
      rewrite (Hblind (registry this') (registry this)).
      by destruct (respond L _ _ (GetNode operator0) σ) as [[e|u] σ1].
    + unfold getAllNodes, await. cbn [mbind prog_bind prog_bind_def run].
      rewrite (Hblind (registry this') (registry this)).
      destruct (respond L _ _ GetNodeOperators σ) as [[e|ops] σ1]; [done|].
      pose proof (getAllNodes_loop_blind L (registry this') (registry this)
                    ops Hblind [] σ1) as Hloop.
      destruct (run L (getAllNodes_loop (registry this') ops []) σ1)
        as [[o1 s1] e1].
      by destruct (run L (getAllNodes_loop (registry this) ops []) σ1)
        as [[o2 s2] e2].
    + unfold getPartyByAddress, await.
      cbn [mbind prog_bind prog_bind_def run].
      rewrite (Hblind (registry this') (registry this)).
      destruct (respond L _ _ (GetPartyDetailsByAddress addr) σ)
        as [[e|details] σ1]; [done|].
      by destruct (toPartyDetails E _) as [e|d].
    + unfold getPartyByOcpi, await.
      destruct (verifyStringLen countryCode0 2) as [e|[]];
        cbn [lift mbind prog_bind prog_bind_def run]; [done|].
      destruct (verifyStringLen partyId0 3) as [e|[]];
        cbn [lift mbind prog_bind prog_bind_def run]; [done|].
      destruct (toHex E countryCode0) as [e|country];
        cbn [lift mbind prog_bind prog_bind_def run]; [done|].
      destruct (toHex E partyId0) as [e|id];
        cbn [lift mbind prog_bind prog_bind_def run]; [done|].
      rewrite (Hblind (registry this') (registry this)).
      destruct (respond L _ _ (GetPartyDetailsByOcpi _ _) σ)
        as [[e|details] σ1]; [done|].
      by destruct (toPartyDetails E _) as [e|d].
    + unfold getAllParties, await. cbn [mbind prog_bind prog_bind_def run].
      rewrite (Hblind (registry this') (registry this)).
      destruct (respond L _ _ GetParties σ) as [[e|addrs] σ1]; [done|].
      pose proof (getAllParties_loop_blind E L (registry this')
                    (registry this) addrs Hblind [] σ1) as Hloop.
      destruct (run L (getAllParties_loop E (registry this') addrs []) σ1)
        as [[o1 s1] e1].
      by destruct (run L (getAllParties_loop E (registry this) addrs []) σ1)
        as [[o2 s2] e2].
Qed.

Lemma reads_only_query_witness :
  Forall query_event
    (run (Fixture.nodes_ledger
            [("0x9bc1169ca09555bf2721a5c9ec6d69c8073bfeb4", "https://a.example");
             ("0x00000000000000000000000000000000000000aa", "")])
       (invoke Sample.env Sample.read_only OGetAllNodes) 0).2
  ∧ (run (Fixture.nodes_ledger
            [("0x9bc1169ca09555bf2721a5c9ec6d69c8073bfeb4", "https://a.example");
             ("0x00000000000000000000000000000000000000aa", "")])
       (invoke Sample.env Sample.writable OGetAllNodes) 0).1
    = (run (Fixture.nodes_ledger
              [("0x9bc1169ca09555bf2721a5c9ec6d69c8073bfeb4",
                "https://a.example");
               ("0x00000000000000000000000000000000000000aa", "")])
         (invoke Sample.env Sample.read_only OGetAllNodes) 0).1.
Proof.
  destruct (reads_only_query Sample.env Sample.read_only Sample.writable
              OGetAllNodes
              (Fixture.nodes_ledger
                 [("0x9bc1169ca09555bf2721a5c9ec6d69c8073bfeb4",
                   "https://a.example");
                  ("0x00000000000000000000000000000000000000aa", "")]) 0
              eq_refl) as (Hquery & _ & Hsame).
  split; [exact Hquery|]. apply Hsame. by intros via via' R c n.
Defined.

(** X4.  Every write operation runs the same course against any ledger: it
    submits one transaction and then waits for that very transaction, and it
    resolves to the transaction the ledger answered (not to the receipt).
    When it fails, either nothing was sent and the ledger is in the state it
    was in, or the submission was rejected and nothing else was sent, or the
    wait for the submitted transaction failed; the error is then the one of
    the rejected call.  A write makes no query, and all its calls are made
    on the wrapper's contract handle. *)
Theorem writes_submit_then_wait (E : Env) (this : Registry) (o : operation)
    (L : Ledger) (σ : lstate L) :
  is_write o = true →
  write_course L (registry this) σ (run L (invoke E this o) σ).
Proof. apply writes_follow_course. Qed.

Lemma writes_submit_then_wait_witness :
  run (Fixture.nodes_ledger []) (invoke Sample.env Sample.writable ODeleteParty)
    7
  = (inr (VTx (mkTx "0xfeed")), 9,
     [Event (registry Sample.writable) DeleteParty (inr (mkTx "0xfeed"));
      Event (registry Sample.writable) (Wait (mkTx "0xfeed"))
        (inr (mkReceipt 8))])
  ∧ write_course Fixture.unreachable (registry Sample.writable) ()
      (run Fixture.unreachable
         (invoke Sample.env Sample.writable
            (OSetPartyModulesRaw [] [1] "owner")) ()).
Proof.
  split; [vm_compute; reflexivity|].
  apply (writes_submit_then_wait Sample.env Sample.writable
           (OSetPartyModulesRaw [] [1] "owner")). reflexivity.
Defined.

(** X5.  A raw operation whose checks pass and whose hex conversions
    succeed, but whose private key the wallet constructor rejects, throws
    the constructor's error and makes no contract call: against any ledger
    it leaves the state as it was, with no event.  The conversions come
    first: when one of them throws, [setPartyRaw] throws that error and the
    key is never looked at. *)
Theorem raw_rejects_invalid_key (E : Env) (this : Registry) (o : operation)
    (key : string) :
  raw_signer o = Some key →
  computeAddress E key = None →
  first_error (checks E this o) = None →
  (is_Some (payload E o) →
   invoke E this o = Throw InvalidPrivateKey
   ∧ ∀ (L : Ledger) (σ : lstate L),
       run L (invoke E this o) σ = (inl InvalidPrivateKey, σ, []))
  ∧ (payload E o = None →
     ∃ input, invoke E this o = Throw (InvalidNumber input)).
Proof.
  intros Hkey Hnone Hchecks.
  assert ((is_Some (payload E o) → invoke E this o = Throw InvalidPrivateKey)
          ∧ (payload E o = None →
             ∃ input, invoke E this o = Throw (InvalidNumber input)))
    as [Hthrow Hconv].
  { destruct o; try discriminate Hkey; injection Hkey as <-;
      cbn in Hchecks; unfold_methods;
      repeat match type of Hchecks with
        | context [verifyWritable ?t] =>
            destruct (verifyWritable t) as [?|[]]; cbn in Hchecks;
            try discriminate Hchecks
        | context [verifyStringLen ?s ?n] =>
            destruct (verifyStringLen s n) as [?|[]]; cbn in Hchecks;
            try discriminate Hchecks
        | context [verifyAddress ?E' ?a] =>
            destruct (verifyAddress E' a) as [?|[]]; cbn in Hchecks;
            try discriminate Hchecks
        end;
      unfold Wallet_new, toHex; cbn [payload];
      repeat match goal with
        | |- context [web3_toHex ?E' ?s] =>
            destruct (web3_toHex E' s) as [?|]; cbn
        end;
      rewrite ?Hnone; cbn;
      (split; [try done; by intros [? ?] | try done; eauto]). }
  split; [|exact Hconv].
  intros Hpayload. rewrite (Hthrow Hpayload). done.
Qed.

Lemma raw_rejects_invalid_key_witness :
  invoke Sample.env Sample.writable
    (OSetPartyRaw "de" "abc" [0] "0x9bc1169ca09555bf2721a5c9ec6d69c8073bfeb4" "")
  = Throw InvalidPrivateKey
  ∧ ∃ input,
      invoke Sample.env Sample.writable
        (OSetPartyRaw "de" "1.5" [0]
           "0x9bc1169ca09555bf2721a5c9ec6d69c8073bfeb4" "")
      = Throw (InvalidNumber input).
Proof.
  split.
  - apply (raw_rejects_invalid_key Sample.env Sample.writable
             (OSetPartyRaw "de" "abc" [0]
                "0x9bc1169ca09555bf2721a5c9ec6d69c8073bfeb4" "") "");
      [reflexivity | reflexivity | vm_compute; reflexivity
      | vm_compute; eauto].
  - apply (raw_rejects_invalid_key Sample.env Sample.writable
             (OSetPartyRaw "de" "1.5" [0]
                "0x9bc1169ca09555bf2721a5c9ec6d69c8073bfeb4" "") "");
      [reflexivity | reflexivity | vm_compute; reflexivity
      | vm_compute; reflexivity].
Defined.

(** X6.  [setNode] of a writable wrapper parses its argument with
    [new URL]: when that throws, the method throws without a contract call;
    otherwise it submits the origin, and nothing else of the argument
    reaches the contract, so two arguments with the same origin behave
    alike. *)
Theorem setNode_submits_origin (E : Env) (this : Registry) (domain : string) :
  mode this = ModeRW →
  (URL_origin E domain = None →
   setNode E this domain = Throw (InvalidURL domain))
  ∧ (∀ origin, URL_origin E domain = Some origin →
       first_call (setNode E this domain) = Some (Sent (SetNode origin))
       ∧ ∀ domain', URL_origin E domain' = Some origin →
                    setNode E this domain' = setNode E this domain).
Proof.
  intros Hrw. apply verifyWritable_ok in Hrw. unfold setNode, URL_new.
  rewrite Hrw. split.
  - by intros ->.
  - intros origin ->. split; [done|]. by intros domain' ->.
Qed.

Lemma setNode_submits_origin_witness :
  setNode Sample.env Sample.writable "node.example.org"
  = Throw (InvalidURL "node.example.org")
  ∧ setNode Sample.env Sample.writable "https://node.example.org/other#top"
    = setNode Sample.env Sample.writable "https://node.example.org/path?x=1".
Proof.
  split.
  - apply (setNode_submits_origin Sample.env Sample.writable
             "node.example.org"); reflexivity.
  - destruct (setNode_submits_origin Sample.env Sample.writable
                "https://node.example.org/path?x=1" eq_refl) as [_ Hsame].
    destruct (Hsame "https://node.example.org") as [_ Heq];
      [vm_compute; reflexivity|].
    apply Heq. vm_compute. reflexivity.
Defined.


(** *** The constructor *)

(** X7.  A wrapper that the constructor returns is consistent: it is in
    mode r+w exactly when it holds a wallet; the contract handle is
    connected to that same wallet (to the bare provider when there is none);
    the wallet was built from the signer argument, which then is not empty,
    and carries the address of that key; contract address and provider url
    come from the entry of the chosen network. *)
Theorem constructor_consistent (E : Env) (environment : string)
    (signer : option string) (this : Registry) :
  constructor E environment signer = inr this →
  (mode this = ModeRW ↔ is_Some (wallet this))
  ∧ connected_wallet (registry this) = wallet this
  ∧ (∀ w, wallet this = Some w →
       signer = Some (privateKey w)
       ∧ privateKey w ≠ ""
       ∧ computeAddress E (privateKey w) = Some (address w))
  ∧ (wallet this = None → signer = None ∨ signer = Some "")
  ∧ ∃ net,
      networks E !! environment = Some net
      ∧ at_address (registry this) = contract_address (net_contract net)
      ∧ provider this
        = protocol (net_provider net) +:+ "://" +:+ host (net_provider net)
          +:+ ":" +:+ port (net_provider net).
Proof.
  unfold constructor.
  destruct (networks E !! environment) as [net|]; [|by case_decide].
  destruct signer as [key|]; [case_decide as Hkey|].
  - intros [= <-]. cbn. subst key.
    split; [split; [done | by intros [? ?]]|]. split; [done|].
    split; [done|]. split; [by right|]. eauto.
  - unfold Wallet_new.
    destruct (computeAddress E key) as [a|] eqn:Ha; cbn; [|done].
    intros [= <-]. cbn.
    split; [by split; eauto|]. split; [done|].
    split; [by intros w [= <-]|]. split; [done|]. eauto.
  - intros [= <-]. cbn.
    split; [split; [done | by intros [? ?]]|]. split; [done|].
    split; [done|]. split; [by left|]. eauto.
Qed.

Lemma constructor_consistent_witness :
  ∃ this,
    constructor Sample.env "local" (Some "spender") = inr this
    ∧ wallet this = Some (mkWallet "spender" "0xspender")
    ∧ connected_wallet (registry this) = wallet this
    ∧ provider this = "http://localhost:8544".
Proof.
  exists Sample.writable.
  assert (constructor Sample.env "local" (Some "spender") = inr Sample.writable)
    as Hnew by (vm_compute; reflexivity).
  destruct (constructor_consistent _ _ _ _ Hnew) as (_ & Hconn & _).
  split; [exact Hnew|]. split; [reflexivity|]. split; [exact Hconn|].
  reflexivity.
Defined.

(** X8.  For an environment that is not among the configured networks the
    constructor throws before it looks at the signer: the not-found error,
    unless the name is one that every object inherits, such as [toString];
    then the lookup finds the inherited property, the not-found test passes
    and reading the provider fails with a type error.  For a configured
    environment it throws exactly when the signer is a non-empty string that
    the wallet constructor rejects.  An absent or empty signer never makes
    it fail. *)
Theorem constructor_failures (E : Env) (environment : string)
    (signer : option string) :
  (networks E !! environment = None →
   (environment ∉ Object_prototype_properties →
    constructor E environment signer = inl (NetworkNotFound environment))
   ∧ (environment ∈ Object_prototype_properties →
      constructor E environment signer = inl TypeError))
  ∧ (is_Some (networks E !! environment) →
     (∀ key, signer = Some key → key ≠ "" → computeAddress E key = None →
        constructor E environment signer = inl InvalidPrivateKey)
     ∧ ((∀ key, signer = Some key → key ≠ "" →
           is_Some (computeAddress E key)) →
        ∃ this, constructor E environment signer = inr this)).
Proof.
  unfold constructor. split.
  - intros ->. split; intros Hin; [by rewrite decide_False|].
    by rewrite decide_True.
  - intros [net ->]. split.
    + intros key -> Hkey Hnone. rewrite decide_False by done.
      unfold Wallet_new. by rewrite Hnone.
    + intros Hvalid. destruct signer as [key|]; [|eauto].
      case_decide as Hkey; [eauto|].
      destruct (Hvalid key eq_refl Hkey) as [a Ha].
      unfold Wallet_new. rewrite Ha. cbn. eauto.
Qed.

Lemma constructor_failures_witness :
  constructor Sample.env "volta" (Some "spender")
  = inl (NetworkNotFound "volta")
  ∧ constructor Sample.env "toString" None = inl TypeError
  ∧ ∃ this, constructor Sample.env "local" (Some "") = inr this.
Proof.
  destruct (constructor_failures Sample.env "volta" (Some "spender"))
    as [Hunknown _].
  destruct (constructor_failures Sample.env "toString" None)
    as [Hinherited _].
  destruct (constructor_failures Sample.env "local" (Some "")) as [_ Hknown].
  split; [|split].
  - destruct Hunknown as [Hnot _]; [vm_compute; reflexivity|].
    apply Hnot. apply (bool_decide_unpack _). vm_compute. exact I.
  - destruct Hinherited as [_ Hin]; [vm_compute; reflexivity|].
    apply Hin. apply (bool_decide_unpack _). vm_compute. exact I.
  - destruct Hknown as [_ Hok]; [vm_compute; eauto|].
    apply Hok. intros key [= <-] Hkey. done.
Defined.

(** *** Translating a response *)

(** X9.  [toPartyDetails] succeeds exactly when country code and party id
    of its input decode and roles and both module lists are arrays.  An enum
    index never makes it fail: the translated roles are as many as the
    indices, in the same order, each the name at its index, and an index
    outside the enum gives an undefined entry. *)
Theorem toPartyDetails_succeeds_iff (E : Env) (input : jsobj) :
  ((∃ d, toPartyDetails E input = inr d) ↔
   is_Some (toUtf8String E (prop input "countryCode"))
   ∧ is_Some (toUtf8String E (prop input "partyId"))
   ∧ is_array (prop input "roles")
   ∧ is_array (prop input "modulesSender")
   ∧ is_array (prop input "modulesReceiver"))
  ∧ (∀ d ns,
       toPartyDetails E input = inr d →
       prop input "roles" = JNums ns →
       length (roles d) = length ns
       ∧ ∀ i index, ns !! i = Some index →
                    roles d !! i = Some (RoleNames E !! index)).
Proof.
  unfold toPartyDetails, utf8. split.
  - destruct (toUtf8String E (prop input "countryCode")) as [cc|]; cbn.
    2: { split; [by intros [? ?] | by intros ([? ?] & _)]. }
    destruct (toUtf8String E (prop input "partyId")) as [pid|]; cbn.
    2: { split; [by intros [? ?] | by intros (_ & [? ?] & _)]. }
    destruct (prop input "roles") as [|?|rs]; cbn;
      try (split; [by intros [? ?] | by intros (_ & _ & [] & _)]).
    destruct (prop input "modulesSender") as [|?|ms]; cbn;
      try (split; [by intros [? ?] | by intros (_ & _ & _ & [] & _)]).
    destruct (prop input "modulesReceiver") as [|?|mr]; cbn;
      try (split; [by intros [? ?] | by intros (_ & _ & _ & _ & [])]).
    split; [intros _; repeat split; eauto | eauto].
  - intros d ns Hd Hns. rewrite Hns in Hd.
    destruct (toUtf8String E (prop input "countryCode")) as [cc|];
      cbn in Hd; [|done].
    destruct (toUtf8String E (prop input "partyId")) as [pid|];
      cbn in Hd; [|done].
    destruct (enum_names (ModuleNames E) (prop input "modulesSender"))
      as [?|ms]; cbn in Hd; [done|].
    destruct (enum_names (ModuleNames E) (prop input "modulesReceiver"))
      as [?|mr]; cbn in Hd; [done|].
    injection Hd as <-. cbn. split; [by rewrite length_fmap|].
    intros i index Hi. by rewrite list_lookup_fmap, Hi.
Qed.

Lemma toPartyDetails_succeeds_iff_witness :
  ∃ d, toPartyDetails Sample.env
         (Object_assign {[ "countryCode" := JStr "0x4445";
                           "partyId" := JStr "0x414243" ]}
            Fixture.ocpi_response) = inr d
       ∧ roles d = [Some "CPO"; None].
Proof.
  destruct (toPartyDetails_succeeds_iff Sample.env
              (Object_assign {[ "countryCode" := JStr "0x4445";
                                "partyId" := JStr "0x414243" ]}
                 Fixture.ocpi_response)) as [Hiff _].
  destruct (proj2 Hiff) as [d Hd].
  { vm_compute. repeat split; eauto. }
  exists d. split; [exact Hd|].
  assert (inr d = toPartyDetails Sample.env
                    (Object_assign {[ "countryCode" := JStr "0x4445";
                                      "partyId" := JStr "0x414243" ]}
                       Fixture.ocpi_response)) as Heq by (by rewrite Hd).
  vm_compute in Heq. by injection Heq as ->.
Defined.


(** *** Party reads *)

Lemma toPartyDetails_fields (E : Env) (input : jsobj) (d : PartyDetails) :
  toPartyDetails E input = inr d →
  toUtf8String E (prop input "countryCode") = Some (countryCode d)
  ∧ toUtf8String E (prop input "partyId") = Some (partyId d)
  ∧ pd_address d = prop input "partyAddress".
Proof.
  unfold toPartyDetails, utf8.
  destruct (toUtf8String E (prop input "countryCode")) as [cc|]; cbn; [|done].
  destruct (toUtf8String E (prop input "partyId")) as [pid|]; cbn; [|done].
  destruct (enum_names (RoleNames E) (prop input "roles")); cbn; [done|].
  destruct (enum_names (ModuleNames E) (prop input "modulesSender")); cbn;
    [done|].
  destruct (enum_names (ModuleNames E) (prop input "modulesReceiver")); cbn;
    [done|].
  by intros [= <-].
Qed.

Lemma unless_absent_Some (result d : PartyDetails) :
  unless_absent result = Some d → result = d.
Proof. unfold unless_absent. case_decide; [by intros [= <-] | done]. Qed.

Lemma prop_default (o : jsobj) (name : string) (alt : jsval) :
  match o !! name with
  | Some v => v
  | None => alt
  end = default alt (o !! name).
Proof. by destruct (o !! name). Qed.

(** What [getPartyByOcpi] decodes when it returns a party. *)
Lemma getPartyByOcpi_fields (E : Env) (this : Registry) (cc pid : string)
    (country id : string) (L : Ledger) (σ σ' : lstate L) (details : jsobj)
    (d : PartyDetails) :
  toHex E cc = inr country →
  toHex E pid = inr id →
  respond L (registry this) _ (GetPartyDetailsByOcpi country id) σ
  = (inr details, σ') →
  (run L (getPartyByOcpi E this cc pid) σ).1.1 = inr (Some d) →
  toUtf8String E (default (JStr country) (details !! "countryCode"))
  = Some (countryCode d)
  ∧ toUtf8String E (default (JStr id) (details !! "partyId"))
    = Some (partyId d)
  ∧ pd_address d = prop details "partyAddress".
Proof.
  intros Hcountry Hid Hresp. unfold getPartyByOcpi, await.
  rewrite Hcountry, Hid.
  destruct (verifyStringLen cc 2) as [?|[]];
    cbn [lift mbind prog_bind prog_bind_def run]; [done|].
  destruct (verifyStringLen pid 3) as [?|[]];
    cbn [lift mbind prog_bind prog_bind_def run]; [done|].
  rewrite Hresp.
  destruct (toPartyDetails E _) as [e|d'] eqn:Hd'; cbn; [done|].
  intros [= Hsome]. apply unless_absent_Some in Hsome as ->.
  destruct (toPartyDetails_fields E _ d Hd') as (Hcc & Hpid & ->).
  rewrite prop_Object_assign in Hcc, Hpid. rewrite prop_Object_assign.
  unfold prop in Hcc, Hpid. unfold prop at 1.
  rewrite lookup_insert_eq in Hcc.
  rewrite lookup_insert_ne, lookup_singleton_eq in Hpid by done.
  rewrite lookup_insert_ne, lookup_singleton_ne by done.
  rewrite prop_default in Hcc, Hpid. cbn. unfold prop.
  split; [done|]. split; [done|]. by destruct (details !! "partyAddress").
Qed.

(** X10.  In the party reads the response takes precedence over the
    arguments of the call.  The party that [getPartyByAddress] returns
    carries as address the [partyAddress] property of the response when the
    response has one, and the queried address only otherwise; the country
    code and party id that [getPartyByOcpi] returns are decoded from the
    properties of the response when it has them, and from the hex encoding
    of the arguments only otherwise. *)
Theorem response_overrides_arguments (E : Env) (this : Registry)
    (L : Ledger) (σ σ' : lstate L) (details : jsobj) (d : PartyDetails) :
  (∀ addr,
     respond L (registry this) _ (GetPartyDetailsByAddress addr) σ
     = (inr details, σ') →
     (run L (getPartyByAddress E this addr) σ).1.1 = inr (Some d) →
     pd_address d = default (JStr addr) (details !! "partyAddress"))
  ∧ (∀ cc pid country id,
       toHex E cc = inr country →
       toHex E pid = inr id →
       respond L (registry this) _ (GetPartyDetailsByOcpi country id) σ
       = (inr details, σ') →
       (run L (getPartyByOcpi E this cc pid) σ).1.1 = inr (Some d) →
       toUtf8String E (default (JStr country) (details !! "countryCode"))
       = Some (countryCode d)
       ∧ toUtf8String E (default (JStr id) (details !! "partyId"))
         = Some (partyId d)
       ∧ pd_address d = prop details "partyAddress").
Proof.
  split.
  - intros addr Hresp. unfold getPartyByAddress, await.
    cbn [mbind prog_bind prog_bind_def run]. rewrite Hresp.
    destruct (toPartyDetails E _) as [e|d'] eqn:Hd'; cbn; [done|].
    intros [= Hsome]. apply unless_absent_Some in Hsome as ->.
    destruct (toPartyDetails_fields E _ d Hd') as (_ & _ & ->).
    rewrite prop_Object_assign, <- prop_default. unfold prop.
    by rewrite lookup_singleton_eq.
  - intros cc pid country id. apply getPartyByOcpi_fields.
Qed.

Lemma response_overrides_arguments_witness :
  toUtf8String Sample.env
    (default (JStr "0x4652") (Sample.listed_party !! "countryCode"))
  = Some "DE".
Proof.
  pose (d := mkPartyDetails "DE" "ABC" JUndefined [Some "CPO"; Some "EMSP"]
               (mkPartyModules [] [Some "locations"])
               (mkPartyNode (JStr "0x9bc1169ca09555bf2721a5c9ec6d69c8073bfeb4")
                  (JStr "https://node.example.org"))).
  destruct (response_overrides_arguments Sample.env Sample.read_only
              (Sample.canned [] Sample.listed_party) () ()
              Sample.listed_party d) as [_ Hocpi].
  destruct (Hocpi "fr" "xyz" "0x4652" "0x58595a") as (Hcc & _);
    [reflexivity | reflexivity | reflexivity | vm_compute; reflexivity
    | exact Hcc].
Defined.

(** X11.  A round trip through [getPartyByOcpi]: when the response carries
    no country code and no party id of its own, and decoding inverts the hex
    encoding on the two upper-cased arguments, the party returned has the
    upper-cased arguments as its country code and party id. *)
Theorem getPartyByOcpi_returns_upper_cased (E : Env) (this : Registry)
    (cc pid country id : string) (L : Ledger) (σ σ' : lstate L)
    (details : jsobj) (d : PartyDetails) :
  web3_toHex E (toUpperCase E cc) = Some country →
  web3_toHex E (toUpperCase E pid) = Some id →
  respond L (registry this) _ (GetPartyDetailsByOcpi country id) σ
  = (inr details, σ') →
  details !! "countryCode" = None →
  details !! "partyId" = None →
  toUtf8String E (JStr country) = Some (toUpperCase E cc) →
  toUtf8String E (JStr id) = Some (toUpperCase E pid) →
  (run L (getPartyByOcpi E this cc pid) σ).1.1 = inr (Some d) →
  countryCode d = toUpperCase E cc ∧ partyId d = toUpperCase E pid.
Proof.
  intros Hcountry Hid Hresp Hnocc Hnopid Hcc Hpid Hrun.
  destruct (getPartyByOcpi_fields E this cc pid country id L σ σ' details d)
    as (Hdcc & Hdpid & _); try done.
  { unfold toHex. by rewrite Hcountry. }
  { unfold toHex. by rewrite Hid. }
  rewrite Hnocc in Hdcc. rewrite Hnopid in Hdpid. cbn in Hdcc, Hdpid.
  split; congruence.
Qed.

Lemma getPartyByOcpi_returns_upper_cased_witness :
  ∃ d, (run (Sample.canned [] Fixture.ocpi_response)
          (getPartyByOcpi Sample.env Sample.read_only "de" "abc") ()).1.1
       = inr (Some d)
       ∧ countryCode d = "DE" ∧ partyId d = "ABC".
Proof.
  pose (d := mkPartyDetails "DE" "ABC"
               (JStr "0x0b1d4d8a1f3c7cf0a2b0e9d5f0c6a4e3b2a19876")
               [Some "CPO"; None]
               (mkPartyModules [] [Some "locations"])
               (mkPartyNode (JStr "0x9bc1169ca09555bf2721a5c9ec6d69c8073bfeb4")
                  (JStr "https://node.example.org"))).
  assert ((run (Sample.canned [] Fixture.ocpi_response)
             (getPartyByOcpi Sample.env Sample.read_only "de" "abc") ()).1.1
          = inr (Some d)) as Hrun by (vm_compute; reflexivity).
  exists d. split; [exact Hrun|].
  apply (getPartyByOcpi_returns_upper_cased Sample.env Sample.read_only
           "de" "abc" "0x4445" "0x414243"
           (Sample.canned [] Fixture.ocpi_response) () ()
           Fixture.ocpi_response d);
    [reflexivity | reflexivity | reflexivity | vm_compute; reflexivity
    | vm_compute; reflexivity | vm_compute; reflexivity
    | vm_compute; reflexivity | exact Hrun].
Defined.

(** The loop of [getAllParties] queries the addresses one by one, in order,
    and stops at the first failure. *)
Lemma getAllParties_loop_queries_in_order (E : Env) (via : Contract)
    (L : Ledger) (addrs : list string) :
  ∀ (acc : list PartyDetails) (σ : lstate L),
    match run L (getAllParties_loop E via addrs acc) σ with
    | (inr ds, _, evs) =>
        (party_responses evs).*1 = addrs
        ∧ length evs = length addrs
        ∧ (length ds ≤ length acc + length addrs)%nat
    | (inl _, _, evs) =>
        (party_responses evs).*1 `prefix_of` addrs
        ∧ (length evs ≤ length addrs)%nat
    end.
Proof.
  induction addrs as [|addr rest IH]; intros acc σ.
  - cbn. split; [done|]. split; [done|]. lia.
  - cbn [getAllParties_loop]. unfold await.
    cbn [mbind prog_bind prog_bind_def run].
    destruct (respond L _ _ (GetPartyDetailsByAddress addr) σ)
      as [[e|details] σ1].
    { cbn. split; [apply prefix_nil | lia]. }
    case_decide as Hlisted.
    + destruct (toPartyDetails E _) as [e|d];
        cbn [lift mbind prog_bind prog_bind_def run].
      { rewrite party_responses_query. cbn.
        split; [apply prefix_cons, prefix_nil | lia]. }
      specialize (IH (acc ++ [d]) σ1).
      destruct (run L (getAllParties_loop E via rest (acc ++ [d])) σ1)
        as [[[e|ds] σ2] evs]; rewrite party_responses_query; cbn.
      * destruct IH as [Hpre Hlen]. split; [by apply prefix_cons | lia].
      * destruct IH as (-> & -> & Hlen). rewrite length_app in Hlen.
        cbn in Hlen. split; [done|]. split; [done|]. lia.
    + specialize (IH acc σ1).
      destruct (run L (getAllParties_loop E via rest acc) σ1)
        as [[[e|ds] σ2] evs]; rewrite party_responses_query; cbn.
      * destruct IH as [Hpre Hlen]. split; [by apply prefix_cons | lia].
      * destruct IH as (-> & -> & Hlen). split; [done|]. split; [done|]. lia.
Qed.

(** X12.  [getAllParties] asks for the party addresses and then queries
    each address once, in the order given, so a successful listing costs one
    call more than there are addresses and returns at most as many parties.
    It stops at the first failure: the addresses queried by then are an
    initial part of the list, and no later one is queried. *)
Theorem getAllParties_queries_each_address_once (E : Env) (this : Registry)
    (L : Ledger) (σ : lstate L) :
  match run L (getAllParties E this) σ with
  | (inr ds, _, evs) =>
      ∃ addrs evs',
        evs = Event (registry this) GetParties (inr addrs) :: evs'
        ∧ (party_responses evs').*1 = addrs
        ∧ length evs = S (length addrs)
        ∧ (length ds ≤ length addrs)%nat
  | (inl e, _, evs) =>
      evs = [Event (registry this) GetParties (inl e)]
      ∨ ∃ addrs evs',
          evs = Event (registry this) GetParties (inr addrs) :: evs'
          ∧ (party_responses evs').*1 `prefix_of` addrs
          ∧ (length evs' ≤ length addrs)%nat
  end.
Proof.
  unfold getAllParties, await. cbn [mbind prog_bind prog_bind_def run].
  destruct (respond L _ _ GetParties σ) as [[e|addrs] σ1]; [by left|].
  pose proof (getAllParties_loop_queries_in_order E (registry this) L addrs
                [] σ1) as Hloop.
  destruct (run L (getAllParties_loop E (registry this) addrs []) σ1)
    as [[[e|ds] σ2] evs].
  - right. exists addrs, evs. by destruct Hloop.
  - destruct Hloop as (Hq & Hlen & Hds). exists addrs, evs. cbn.
    rewrite Hlen. by repeat split.
Qed.

(** *** Signatures *)

Lemma query_event_unsigned (ev : event) : query_event ev → unsigned_event ev.
Proof. destruct ev as [R via c r]. by destruct c. Qed.

Lemma submit_unsigned (L : Ledger) (this : Registry) (σ : lstate L)
    (c : call Tx) :
  delegated c = None →
  Forall unsigned_event
    (run L (VTx <$> (tx ← await (registry this) c; mined this tx)) σ).2.
Proof.
  intros Hc. rewrite run_fmap_events. unfold await, mined.
  cbn [mbind prog_bind prog_bind_def run].
  destruct (respond L _ _ c σ) as [[e|tx] σ1]; cbn; [by repeat constructor|].
  destruct (respond L _ _ (Wait tx) σ1) as [[e|receipt] σ2]; cbn;
    by repeat constructor.
Qed.

Lemma throw_unsigned (L : Ledger) (σ : lstate L) (e : error) :
  Forall unsigned_event (run L (Throw e : prog value) σ).2.
Proof. constructor. Qed.

(** X13.  Only the raw operations send a signature: in a run of any read
    and of any direct write ([setNode], [deleteNode], [setParty],
    [setPartyModules], [deleteParty]) no call carries a claimed signer with
    [v], [r] and [s]. *)
Theorem only_raw_operations_send_signatures (E : Env) (this : Registry)
    (o : operation) (L : Ledger) (σ : lstate L) :
  raw_signer o = None →
  Forall unsigned_event (run L (invoke E this o) σ).2.
Proof.
  intros Hraw. destruct (is_write o) eqn:Hwrite.
  2: { eapply Forall_impl; [by apply read_events_query|].
       apply query_event_unsigned. }
  destruct o; try discriminate Hwrite; try discriminate Hraw; unfold_methods;
    unfold toHex;
    repeat match goal with
      | |- context [web3_toHex ?E' ?s] =>
          destruct (web3_toHex E' s) as [?|];
          cbn [lift mbind prog_bind prog_bind_def];
          try apply throw_unsigned
      | |- context [verifyWritable ?t] =>
          destruct (verifyWritable t) as [?|[]];
          cbn [lift mbind prog_bind prog_bind_def];
          try apply throw_unsigned
      | |- context [verifyStringLen ?s ?n] =>
          destruct (verifyStringLen s n) as [?|[]];
          cbn [lift mbind prog_bind prog_bind_def];
          try apply throw_unsigned
      | |- context [verifyAddress ?E' ?a] =>
          destruct (verifyAddress E' a) as [?|[]];
          cbn [lift mbind prog_bind prog_bind_def];
          try apply throw_unsigned
      | |- context [URL_new ?E' ?d] =>
          destruct (URL_new E' d) as [?|?];
          cbn [lift mbind prog_bind prog_bind_def];
          try apply throw_unsigned
      end;
    by apply submit_unsigned.
Qed.

Lemma only_raw_operations_send_signatures_witness :
  Forall unsigned_event
    (run (Fixture.nodes_ledger [])
       (invoke Sample.env Sample.writable
          (OSetParty "de" "abc" [0; 1]
             "0x9bc1169ca09555bf2721a5c9ec6d69c8073bfeb4")) 0).2
  ∧ length
      (run (Fixture.nodes_ledger [])
         (invoke Sample.env Sample.writable
            (OSetParty "de" "abc" [0; 1]
               "0x9bc1169ca09555bf2721a5c9ec6d69c8073bfeb4")) 0).2 = 2.
Proof.
  split; [|vm_compute; reflexivity].
  apply (only_raw_operations_send_signatures Sample.env Sample.writable
           (OSetParty "de" "abc" [0; 1]
              "0x9bc1169ca09555bf2721a5c9ec6d69c8073bfeb4")). reflexivity.
Defined.
